(** * degenbot: the Uniswap LP cycle arbitrage helper

    A shallow embedding of [degenbot/arbitrage/uniswap_lp_cycle.py]
    (class [UniswapLpCycle]) and the properties its specification
    states about construction, the pre-calculation check, the objective
    evaluated by the optimizer, the calculation and the per-hop swap
    amounts.

    Python exceptions are values of [exn] carried by the [result] monad,
    Python [float]s are IEEE 754 binary64 numbers ([spec_float] with
    precision 53), Python [int]s are [Z], dictionaries are [gmap]s. *)

From Stdlib Require Import ZArith QArith List Bool Lia.
From Stdlib Require Import Floats.SpecFloat.
From stdpp Require Import base option list strings gmap.

Import ListNotations.
Local Open Scope Z_scope.

(** ** Python floats *)

Module PyFloat.

Definition prec : Z := 53.
Definition emax : Z := 1024.

Abbreviation float := spec_float (only parsing).

(** Arithmetic exceptions of the Python runtime. *)
Inductive arith_error :=
| ZeroDivisionError
| OverflowError
| ValueError_nan.

Definition is_zero (x : float) : bool :=
  match x with S754_zero _ => true | _ => false end.

Definition finite_or_overflow (x : float) : arith_error + float :=
  match x with
  | S754_infinity _ => inl OverflowError
  | _ => inr x
  end.

(** [float(n)] for an int [n]: the nearest binary64 number, ties to
    even; [OverflowError] beyond the range. *)
Definition of_int (n : Z) : arith_error + float :=
  finite_or_overflow (binary_normalize prec emax n 0 false).

(** [a / b] for ints (true division): the correctly rounded quotient. *)
Definition int_truediv (a b : Z) : arith_error + float :=
  if b =? 0 then inl ZeroDivisionError
  else if a =? 0 then inr (S754_zero (b <? 0))
  else
    let '(q, e, l) := SFdiv_core_binary prec emax (Z.abs a) 0 (Z.abs b) 0 in
    finite_or_overflow
      (binary_round_aux prec emax (xorb (a <? 0) (b <? 0)) q e l).

(** [x / y] for floats: division by a zero raises. *)
Definition truediv (x y : float) : arith_error + float :=
  if is_zero y then inl ZeroDivisionError
  else inr (SFdiv prec emax x y).

Definition mul (x y : float) : float := SFmul prec emax x y.
Definition neg (x : float) : float := SFopp x.
Definition ltb (x y : float) : bool := SFltb x y.

(** [int(x)]: truncation toward zero. *)
Definition to_int (x : float) : arith_error + Z :=
  match x with
  | S754_zero _ => inr 0
  | S754_infinity _ => inl OverflowError
  | S754_nan => inl ValueError_nan
  | S754_finite s m e =>
      let a := if 0 <=? e then Z.shiftl (Zpos m) e
               else Z.shiftr (Zpos m) (- e) in
      inr (if s then - a else a)
  end.

(** A decimal literal [n/d], read as the nearest binary64 number. *)
Definition literal (n d : Z) : float :=
  match int_truediv n d with
  | inr x => x
  | inl _ => S754_nan
  end.

Definition f_1_0 : float := Eval vm_compute in literal 1 1.
Definition f_0_45 : float := Eval vm_compute in literal 45 100.
Definition f_0_50 : float := Eval vm_compute in literal 50 100.
Definition f_0_55 : float := Eval vm_compute in literal 55 100.

End PyFloat.

(** ** Exceptions and the result monad *)

(** The messages of [ZeroLiquidityError] raised by the pre-calculation
    check. *)
Inductive zero_liquidity_msg :=
| V2_no_liquidity
| V2_no_liquidity_0_to_1
| V2_no_liquidity_1_to_0
| V3_not_initialized
| V3_empty_bitmap
| V3_no_liquidity_0_to_1
| V3_no_liquidity_1_to_0.

(** [LiquidityPoolError] and its subclasses.  [ZeroLiquidityError] is
    not one of them. *)
Inductive liquidity_pool_error :=
| ZeroSwapError
| InsufficientAmountOutError
| LiquidityPoolError_other.

(** The exceptions, by class, as in degenbot's [exceptions] module (not
    among the sources read).  [ZeroLiquidityError] is a subclass of
    [ArbitrageError], so a clause [except ArbitrageError] catches it and
    a clause [except LiquidityPoolError] does not. *)
Inductive exn :=
| LiquidityPoolError (e : liquidity_pool_error)
| EVMRevertError
| ZeroLiquidityError (pool : N) (msg : zero_liquidity_msg)
| ArbitrageError (msg : arbitrage_msg)
| ValueError_input_token
| AttributeError
| ArithmeticError (e : PyFloat.arith_error)
with arbitrage_msg :=
| No_profitable_arbitrage (profit_factor : spec_float)
| Calculate_tokens_out (e : liquidity_pool_error)
| Zero_output_swap (pool : N)
| No_possible_arbitrage (cause : exn).

Inductive result (A : Type) :=
| Ok (a : A)
| Raise (e : exn).
Arguments Ok {A} a.
Arguments Raise {A} e.

#[global] Instance result_ret : MRet result := fun A a => Ok a.
#[global] Instance result_bind : MBind result :=
  fun A B f m => match m with Ok a => f a | Raise e => Raise e end.

(** Runs a float operation, turning its failure into an exception. *)
Definition arith {A : Type} (r : PyFloat.arith_error + A) : result A :=
  match r with
  | inr a => Ok a
  | inl e => Raise (ArithmeticError e)
  end.

(** [isinstance(e, (EVMRevertError, LiquidityPoolError))]: true of the
    two classes and of the subclasses of [LiquidityPoolError]. *)
Definition is_revert_or_pool_error (e : exn) : bool :=
  match e with
  | EVMRevertError | LiquidityPoolError _ => true
  | _ => false
  end.

(** ** Data model *)

(** Modelled from the spec: a token is identified by its 20-byte address
    and compared by it ([Erc20Token] is not part of the sources read). *)
Record Erc20Token := { token_address : N }.

Definition token_eqb (a b : Erc20Token) : bool :=
  (token_address a =? token_address b)%N.

(** [fractions.Fraction]: always in lowest terms, positive denominator. *)
Record Fraction := { numerator : Z; denominator : Z }.

Definition mkFraction (n d : Z) : Fraction :=
  let g := Z.gcd n d in
  {| numerator := n / g; denominator := d / g |}.

Record UniswapV2PoolState := {
  reserves_token0 : Z;
  reserves_token1 : Z
}.

Record UniswapV3PoolState := {
  liquidity : Z;
  sqrt_price_x96 : Z;
  tick : Z;
  tick_bitmap : gmap Z Z;
  tick_data : gmap Z (Z * Z)
}.

Inductive PoolState :=
| V2State (s : UniswapV2PoolState)
| V3State (s : UniswapV3PoolState).

Record LiquidityPool := {
  v2_address : N;
  v2_token0 : Erc20Token;
  v2_token1 : Erc20Token;
  fee_token0 : Fraction;
  fee_token1 : Fraction;
  v2_state : UniswapV2PoolState
}.

Record V3LiquidityPool := {
  v3_address : N;
  v3_token0 : Erc20Token;
  v3_token1 : Erc20Token;
  _fee : Z;
  _sparse_bitmap : bool;
  v3_state : UniswapV3PoolState
}.

(** [Union[LiquidityPool, V3LiquidityPool]]; a [CamelotLiquidityPool] is
    a [LiquidityPool] with unequal fees. *)
Inductive Pool :=
| V2 (p : LiquidityPool)
| V3 (p : V3LiquidityPool).

Definition address (pool : Pool) : N :=
  match pool with V2 p => v2_address p | V3 p => v3_address p end.
Definition token0 (pool : Pool) : Erc20Token :=
  match pool with V2 p => v2_token0 p | V3 p => v3_token0 p end.
Definition token1 (pool : Pool) : Erc20Token :=
  match pool with V2 p => v2_token1 p | V3 p => v3_token1 p end.
Definition state (pool : Pool) : PoolState :=
  match pool with
  | V2 p => V2State (v2_state p)
  | V3 p => V3State (v3_state p)
  end.

Record UniswapPoolSwapVector := {
  token_in : Erc20Token;
  token_out : Erc20Token;
  zero_for_one : bool
}.

Inductive PoolSwapAmounts :=
| UniswapV2PoolSwapAmounts (amounts : Z * Z)
| UniswapV3PoolSwapAmounts
    (amount_specified : Z) (zero_for_one : bool) (sqrt_price_limit_x96 : Z).

Record ArbitrageCalculationResult := {
  res_id : N;
  res_input_token : Erc20Token;
  profit_token : Erc20Token;
  input_amount : Z;
  profit_amount : Z;
  swap_amounts : list PoolSwapAmounts
}.

Record UniswapLpCycle := {
  id : N;
  input_token : Erc20Token;
  max_input : Z;
  swap_pools : list Pool;
  _swap_vectors : list UniswapPoolSwapVector
}.

(** Modelled from the spec: the bounds of [TickMath] (the V3 libraries are
    not part of the sources read). *)
Module TickMath.
Definition MIN_SQRT_RATIO : Z := 4295128739.
Definition MAX_SQRT_RATIO : Z :=
  1461446703485210103287273052203988822378723970342.
End TickMath.

(** ** The constructor *)

Inductive warning := No_maximum_input_provided.

(** One turn of the loop that sets up the swap vectors: [expected] is the
    input token at the first pool and the previous pool's output after. *)
Definition swap_vector_at (expected : Erc20Token) (pool : Pool)
  : result UniswapPoolSwapVector :=
  if token_eqb expected (token0 pool) then
    Ok {| token_in := token0 pool; token_out := token1 pool;
          zero_for_one := true |}
  else if token_eqb expected (token1 pool) then
    Ok {| token_in := token1 pool; token_out := token0 pool;
          zero_for_one := false |}
  else Raise ValueError_input_token.

Fixpoint swap_vectors_from (expected : Erc20Token) (pools : list Pool)
  : result (list UniswapPoolSwapVector) :=
  match pools with
  | [] => Ok []
  | pool :: rest =>
      v ← swap_vector_at expected pool;
      vs ← swap_vectors_from (token_out v) rest;
      Ok (v :: vs)
  end.

(** [max_input] after the constructor's default, with the warning. *)
Definition default_max_input (max_input : option Z) : list warning * Z :=
  match max_input with
  | None => ([No_maximum_input_provided], 100 * 10 ^ 18)
  | Some m => ([], m)
  end.

(** [UniswapLpCycle.__init__]: the warnings issued, and the cycle or the
    exception raised. *)
Definition __init__ (input_token : Erc20Token) (swap_pools : list Pool)
    (id : N) (max_input : option Z) : list warning * result UniswapLpCycle :=
  let '(warnings, max_input) := default_max_input max_input in
  (warnings,
   vectors ← swap_vectors_from input_token swap_pools;
   Ok {| id := id; input_token := input_token; max_input := max_input;
         swap_pools := swap_pools; _swap_vectors := vectors |}).

(** ** State overrides *)

(** An override is a pool state, or a simulation result whose
    [future_state] is used. *)
Inductive Override :=
| Override_state (s : PoolState)
| Override_simulation (future_state : PoolState).

Definition override_pool_state (o : Override) : PoolState :=
  match o with
  | Override_state s => s
  | Override_simulation future_state => future_state
  end.

(** [_sort_overrides]: later overrides of an address replace earlier ones.
    The [ValueError] for an override of another type cannot arise: the
    type [Override] has no such value. *)
Definition _sort_overrides (overrides : option (list (Pool * Override)))
  : gmap N PoolState :=
  match overrides with
  | None => ∅
  | Some l =>
      foldl (fun sorted_overrides '(pool, override) =>
               <[address pool := override_pool_state override]> sorted_overrides)
            ∅ l
  end.

(** ** The pre-calculation check *)

(** The liquidity checks of one hop and its spot price (token1 per
    token0). *)
Definition hop_price (pool : Pool) (vector : UniswapPoolSwapVector)
    (pool_state : PoolState) : result spec_float :=
  match pool, pool_state with
  | V2 _, V2State s =>
      if (reserves_token0 s =? 0) || (reserves_token1 s =? 0) then
        Raise (ZeroLiquidityError (address pool) V2_no_liquidity)
      else if (reserves_token1 s =? 1) && zero_for_one vector then
        Raise (ZeroLiquidityError (address pool) V2_no_liquidity_0_to_1)
      else if (reserves_token0 s =? 1) && negb (zero_for_one vector) then
        Raise (ZeroLiquidityError (address pool) V2_no_liquidity_1_to_0)
      else
        arith (PyFloat.int_truediv (reserves_token1 s) (reserves_token0 s))
  | V3 _, V3State s =>
      if sqrt_price_x96 s =? 0 then
        Raise (ZeroLiquidityError (address pool) V3_not_initialized)
      else if bool_decide (tick_bitmap s = ∅) then
        Raise (ZeroLiquidityError (address pool) V3_empty_bitmap)
      else if (liquidity s =? 0)
              && ((sqrt_price_x96 s =? TickMath.MIN_SQRT_RATIO + 1)
                  && zero_for_one vector) then
        Raise (ZeroLiquidityError (address pool) V3_no_liquidity_0_to_1)
      else if (liquidity s =? 0)
              && ((sqrt_price_x96 s =? TickMath.MAX_SQRT_RATIO - 1)
                  && negb (zero_for_one vector)) then
        Raise (ZeroLiquidityError (address pool) V3_no_liquidity_1_to_0)
      else
        arith (PyFloat.int_truediv (sqrt_price_x96 s ^ 2) (2 ^ 192))
  | _, _ => Raise AttributeError
  end.

(** The fee of a hop: the V2 fee of the direction, or the V3 fee in
    hundredths of a bip. *)
Definition hop_fee (pool : Pool) (vector : UniswapPoolSwapVector) : Fraction :=
  match pool with
  | V2 p => if zero_for_one vector then fee_token0 p else fee_token1 p
  | V3 p => mkFraction (_fee p) 1000000
  end.

(** [(price if zero_for_one else 1 / price)
     * ((fee.denominator - fee.numerator) / fee.denominator)]. *)
Definition hop_factor (vector : UniswapPoolSwapVector) (price : spec_float)
    (fee : Fraction) : result spec_float :=
  directional ← (if zero_for_one vector then Ok price
                 else arith (PyFloat.truediv PyFloat.f_1_0 price));
  multiplier ← arith (PyFloat.int_truediv
                        (denominator fee - numerator fee) (denominator fee));
  Ok (PyFloat.mul directional multiplier).

(** [state_overrides.get(pool.address) or pool.state]. *)
Definition effective_state (state_overrides : gmap N PoolState) (pool : Pool)
  : PoolState :=
  default (state pool) (state_overrides !! address pool).

(** One turn of the loop of the check: the factor the hop contributes. *)
Definition hop_step (state_overrides : gmap N PoolState) (pool : Pool)
    (vector : UniswapPoolSwapVector) : result spec_float :=
  price ← hop_price pool vector (effective_state state_overrides pool);
  hop_factor vector price (hop_fee pool vector).

Fixpoint pre_calculation_loop (state_overrides : gmap N PoolState)
    (profit_factor : spec_float)
    (hops : list (Pool * UniswapPoolSwapVector)) : result spec_float :=
  match hops with
  | [] => Ok profit_factor
  | (pool, vector) :: rest =>
      factor ← hop_step state_overrides pool vector;
      pre_calculation_loop state_overrides
        (PyFloat.mul profit_factor factor) rest
  end.

Definition _pre_calculation_check (self : UniswapLpCycle)
    (override_state : option (list (Pool * Override))) : result unit :=
  let state_overrides := _sort_overrides override_state in
  profit_factor ← pre_calculation_loop state_overrides PyFloat.f_1_0
                    (zip (swap_pools self) (_swap_vectors self));
  if PyFloat.ltb profit_factor PyFloat.f_1_0 then
    Raise (ArbitrageError (No_profitable_arbitrage profit_factor))
  else Ok tt.

(** ** Swap amounts, the objective and the calculation *)

Inductive minimize_method := Bounded.

(** The result of [scipy.optimize.minimize_scalar]: [opt.x] and
    [opt.fun]. *)
Record OptimizeResult := { opt_x : spec_float; opt_fun : spec_float }.

(** What the optimizer is called with. *)
Record minimize_args := {
  method : minimize_method;
  bounds : spec_float * spec_float;
  bracket : spec_float * spec_float * spec_float;
  xatol : spec_float
}.

Section Calculation.

(** The pools' swap calculation, [pool.calculate_tokens_out_from_tokens_in
    (token_in, token_in_quantity, override_state)], of the pool helpers. *)
Variable calculate_tokens_out_from_tokens_in :
  Pool -> Erc20Token -> Z -> option PoolState -> result Z.

(** [scipy.optimize.minimize_scalar]; an exception of the objective
    passes through it. *)
Variable minimize_scalar :
  (spec_float -> result spec_float) -> minimize_args -> result OptimizeResult.

(** The record appended for a hop. *)
Definition hop_amounts (pool : Pool) (zfo : bool)
    (_token_in_quantity _token_out_quantity : Z) : PoolSwapAmounts :=
  match pool with
  | V2 _ =>
      UniswapV2PoolSwapAmounts
        (if zfo then (0, _token_out_quantity) else (_token_out_quantity, 0))
  | V3 _ =>
      UniswapV3PoolSwapAmounts _token_in_quantity zfo
        (if zfo then TickMath.MIN_SQRT_RATIO + 1
         else TickMath.MAX_SQRT_RATIO - 1)
  end.

(** The loop of [_build_amounts_out], from hop [i] on. *)
Fixpoint build_amounts_loop (pool_state_overrides : gmap N PoolState)
    (token_in_quantity : Z) (i : nat) (_token_out_quantity : Z)
    (hops : list (Pool * UniswapPoolSwapVector))
  : result (list PoolSwapAmounts) :=
  match hops with
  | [] => Ok []
  | (pool, swap_vector) :: rest =>
      let _token_in_quantity :=
        match i with
        | O => token_in_quantity
        | S _ => _token_out_quantity
        end in
      match calculate_tokens_out_from_tokens_in pool (token_in swap_vector)
              _token_in_quantity (pool_state_overrides !! address pool) with
      | Raise (LiquidityPoolError e) =>
          Raise (ArbitrageError (Calculate_tokens_out e))
      | Raise e => Raise e
      | Ok _token_out_quantity =>
          if _token_out_quantity =? 0 then
            Raise (ArbitrageError (Zero_output_swap (address pool)))
          else
            pools_amounts_out ←
              build_amounts_loop pool_state_overrides token_in_quantity
                (S i) _token_out_quantity rest;
            Ok (hop_amounts pool (zero_for_one swap_vector)
                  _token_in_quantity _token_out_quantity
                :: pools_amounts_out)
      end
  end.

Definition _build_amounts_out (self : UniswapLpCycle)
    (token_in : Erc20Token) (token_in_quantity : Z)
    (pool_state_overrides : gmap N PoolState)
  : result (list PoolSwapAmounts) :=
  build_amounts_loop pool_state_overrides token_in_quantity 0%nat 0
    (zip (swap_pools self) (_swap_vectors self)).

(** The loop of [arb_profit], from hop [i] on: the value of
    [token_out_quantity] when it ends. *)
Fixpoint arb_profit_loop (state_overrides : gmap N PoolState)
    (token_in_quantity : Z) (i : nat) (token_out_quantity : Z)
    (hops : list (Pool * UniswapPoolSwapVector)) : result Z :=
  match hops with
  | [] => Ok token_out_quantity
  | (pool, swap_vector) :: rest =>
      match calculate_tokens_out_from_tokens_in pool (token_in swap_vector)
              (match i with
               | O => token_in_quantity
               | S _ => token_out_quantity
               end)
              (state_overrides !! address pool) with
      | Ok token_out_quantity =>
          arb_profit_loop state_overrides token_in_quantity (S i)
            token_out_quantity rest
      | Raise e =>
          if is_revert_or_pool_error e then Ok 0 else Raise e
      end
  end.

Definition arb_profit (self : UniswapLpCycle)
    (state_overrides : gmap N PoolState) (x : spec_float)
  : result spec_float :=
  token_in_quantity ← arith (PyFloat.to_int x);
  token_out_quantity ←
    arb_profit_loop state_overrides token_in_quantity 0%nat 0
      (zip (swap_pools self) (_swap_vectors self));
  profit ← arith (PyFloat.of_int (token_out_quantity - token_in_quantity));
  Ok (PyFloat.neg profit).

(** The arguments [_calculate] passes to the optimizer. *)
Definition optimizer_args (self : UniswapLpCycle) : result minimize_args :=
  upper ← arith (PyFloat.of_int (max_input self));
  bracket_amount ← arith (PyFloat.of_int (max_input self));
  Ok {| method := Bounded;
        bounds := (PyFloat.f_1_0, upper);
        bracket := (PyFloat.mul PyFloat.f_0_45 bracket_amount,
                    PyFloat.mul PyFloat.f_0_50 bracket_amount,
                    PyFloat.mul PyFloat.f_0_55 bracket_amount);
        xatol := PyFloat.f_1_0 |}.

Definition _calculate (self : UniswapLpCycle)
    (override_state : option (list (Pool * Override)))
  : result ArbitrageCalculationResult :=
  _ ← _pre_calculation_check self override_state;
  let state_overrides := _sort_overrides override_state in
  args ← optimizer_args self;
  opt ← minimize_scalar (arb_profit self state_overrides) args;
  opt_fun_int ← arith (PyFloat.to_int (opt_fun opt));
  let best_profit := - opt_fun_int in
  swap_amount ← arith (PyFloat.to_int (opt_x opt));
  match _build_amounts_out self (input_token self) swap_amount
          state_overrides with
  | Raise e => Raise (ArbitrageError (No_possible_arbitrage e))
  | Ok best_amounts =>
      Ok {| res_id := id self;
            res_input_token := input_token self;
            profit_token := input_token self;
            input_amount := swap_amount;
            profit_amount := best_profit;
            swap_amounts := best_amounts |}
  end.

(** [calculate]: the stateless calculation. *)
Definition calculate (self : UniswapLpCycle)
    (override_state : option (list (Pool * Override)))
  : result ArbitrageCalculationResult :=
  _ ← _pre_calculation_check self override_state;
  _calculate self override_state.

End Calculation.

(** ** The pools and the optimizer of the examples *)

(** Modelled from the spec: the swap calculation of a V2 pool (the pool
    helpers are not part of the sources read): the constant-product
    formula with the fee of the direction, [ZeroSwap] on a zero input,
    [ZeroLiquidity] on an empty reserve, the last unit unreachable. *)
Definition v2_tokens_out (p : LiquidityPool) (token_in : Erc20Token)
    (amount_in : Z) (override : option PoolState) : result Z :=
  match default (V2State (v2_state p)) override with
  | V3State _ => Raise AttributeError
  | V2State s =>
      let '(reserve_in, reserve_out, fee) :=
        if token_eqb token_in (v2_token0 p)
        then (reserves_token0 s, reserves_token1 s, fee_token0 p)
        else (reserves_token1 s, reserves_token0 s, fee_token1 p) in
      if amount_in =? 0 then Raise (LiquidityPoolError ZeroSwapError)
      else if (reserve_in =? 0) || (reserve_out =? 0) then
        Raise (ZeroLiquidityError (v2_address p) V2_no_liquidity)
      else
        let amount_in_with_fee :=
          amount_in * (denominator fee - numerator fee) in
        let amount_out :=
          amount_in_with_fee * reserve_out
          / (reserve_in * denominator fee + amount_in_with_fee) in
        Ok (Z.min amount_out (reserve_out - 1))
  end.

(** A V3 pool of the examples trades at its spot price less the fee, as
    one with liquidity deep enough for the price not to move. *)
Definition v3_tokens_out_at_spot (p : V3LiquidityPool) (token_in : Erc20Token)
    (amount_in : Z) (override : option PoolState) : result Z :=
  match default (V3State (v3_state p)) override with
  | V2State _ => Raise AttributeError
  | V3State s =>
      if amount_in =? 0 then Raise EVMRevertError
      else
        let net := amount_in * (1000000 - _fee p) in
        Ok (if token_eqb token_in (v3_token0 p)
            then net * sqrt_price_x96 s ^ 2 / (1000000 * 2 ^ 192)
            else net * 2 ^ 192 / (1000000 * sqrt_price_x96 s ^ 2))
  end.

Definition example_tokens_out (pool : Pool) : Erc20Token -> Z ->
    option PoolState -> result Z :=
  match pool with
  | V2 p => v2_tokens_out p
  | V3 p => v3_tokens_out_at_spot p
  end.

(** An optimizer that evaluates the objective at every whole number of
    the bounds and returns the first of the lowest. *)
Fixpoint scan_candidates (objective : spec_float -> result spec_float)
    (best : OptimizeResult) (candidates : list Z) : result OptimizeResult :=
  match candidates with
  | [] => Ok best
  | c :: rest =>
      x ← arith (PyFloat.of_int c);
      y ← objective x;
      scan_candidates objective
        (if PyFloat.ltb y (opt_fun best)
         then {| opt_x := x; opt_fun := y |} else best)
        rest
  end.

Definition scan_minimize (objective : spec_float -> result spec_float)
    (args : minimize_args) : result OptimizeResult :=
  lower ← arith (PyFloat.to_int (fst (bounds args)));
  upper ← arith (PyFloat.to_int (snd (bounds args)));
  first ← objective (fst (bounds args));
  scan_candidates objective
    {| opt_x := fst (bounds args); opt_fun := first |}
    (map (fun k => lower + 1 + Z.of_nat k)
         (seq 0 (Z.to_nat (upper - lower)))).

(** An optimizer that stops at once, at the upper point of the bracket. *)
Definition bracket_minimize (objective : spec_float -> result spec_float)
    (args : minimize_args) : result OptimizeResult :=
  let x := snd (bracket args) in
  y ← objective x;
  Ok {| opt_x := x; opt_fun := y |}.

(** [round(x)]: the nearest whole number, ties to the even one. *)
Definition py_round (x : spec_float) : PyFloat.arith_error + Z :=
  match x with
  | S754_zero _ => inr 0
  | S754_infinity _ => inl PyFloat.OverflowError
  | S754_nan => inl PyFloat.ValueError_nan
  | S754_finite s m e =>
      let a :=
        if 0 <=? e then Z.shiftl (Zpos m) e
        else
          let q := Z.shiftr (Zpos m) (- e) in
          let r := Zpos m - Z.shiftl q (- e) in
          let half := Z.shiftl 1 (- e - 1) in
          if r <? half then q
          else if half <? r then q + 1
          else if Z.even q then q else q + 1 in
      inr (if s then - a else a)
  end.

(** The tokens and pools of the examples. *)
Module Examples.
Definition WETH : Erc20Token := {| token_address := 1 |}.
Definition WBTC : Erc20Token := {| token_address := 2 |}.
Definition USDC : Erc20Token := {| token_address := 3 |}.

Definition fee_3_1000 : Fraction := {| numerator := 3; denominator := 1000 |}.

Definition v2_pool (a : N) (t0 t1 : Erc20Token) (r0 r1 : Z) : Pool :=
  V2 {| v2_address := a; v2_token0 := t0; v2_token1 := t1;
        fee_token0 := fee_3_1000; fee_token1 := fee_3_1000;
        v2_state := {| reserves_token0 := r0; reserves_token1 := r1 |} |}.

Definition v3_state_at (sqrt_price liq : Z) (bitmap : gmap Z Z)
  : UniswapV3PoolState :=
  {| liquidity := liq; sqrt_price_x96 := sqrt_price; tick := 0;
     tick_bitmap := bitmap; tick_data := ∅ |}.

Definition v3_pool (a : N) (t0 t1 : Erc20Token) (fee sqrt_price liq : Z)
    (bitmap : gmap Z Z) : Pool :=
  V3 {| v3_address := a; v3_token0 := t0; v3_token1 := t1; _fee := fee;
        _sparse_bitmap := false;
        v3_state := v3_state_at sqrt_price liq bitmap |}.

(** The WBTC/WETH pool of the test suite. *)
Definition wbtc_weth : Pool :=
  v2_pool 10 WBTC WETH 16231137593 2571336301536722443178.

Definition weth_usdc : Pool := v2_pool 11 WETH USDC 1000 1000000.
Definition usdc_weth : Pool := v2_pool 12 USDC WETH 1000000 1010.
Definition usdc_wbtc : Pool := v2_pool 13 USDC WBTC 1000000 50.

(** A V3 pool that was never initialized, a V2 pool down to its last unit
    of WETH, and a V3 pool priced as [usdc_weth]. *)
Definition usdc_weth_v3_empty : Pool := v3_pool 14 USDC WETH 3000 0 0 ∅.
Definition usdc_weth_dust : Pool := v2_pool 15 USDC WETH 1000000 1.
Definition usdc_weth_v3 : Pool :=
  v3_pool 16 USDC WETH 3000 2517910394104712291732011225 1000000
    {[ 0 := 1 ]}.

(** The cycle the constructor builds, or one without pools when it
    raises. *)
Definition cycle_of (token : Erc20Token) (pools : list Pool) (m : option Z)
  : UniswapLpCycle :=
  match (__init__ token pools 7 m).2 with
  | Ok self => self
  | Raise _ =>
      {| id := 7; input_token := token; max_input := 0; swap_pools := [];
         _swap_vectors := [] |}
  end.

(** A V3 pool with WETH as token0, priced as [weth_usdc]. *)
Definition weth_usdc_v3 : Pool :=
  v3_pool 18 WETH USDC 3000 2492980588222487417556446757719 1000000
    {[ 0 := 1 ]}.

Definition weth_cycle_back : UniswapLpCycle :=
  cycle_of WETH [weth_usdc; weth_usdc_v3] (Some 2).

(** A V3 pool with a sparse bitmap, not yet loaded. *)
Definition usdc_weth_v3_sparse : V3LiquidityPool :=
  {| v3_address := 19; v3_token0 := USDC; v3_token1 := WETH; _fee := 3000;
     _sparse_bitmap := true;
     v3_state := v3_state_at 2517910394104712291732011225 1000000 ∅ |}.

Definition weth_cycle_sparse : UniswapLpCycle :=
  cycle_of WETH [weth_usdc; V3 usdc_weth_v3_sparse] (Some 2).

(** A V2 pool so thin in USDC that one unit of WETH buys nothing. *)
Definition weth_usdc_thin : Pool := v2_pool 17 WETH USDC 1000000 1000.

Definition weth_cycle_thin : UniswapLpCycle :=
  cycle_of WETH [weth_usdc_thin; usdc_weth_v3] (Some 2).

(** A V3 pool in which one unit of USDC is priced at 2025 of WETH, and
    the cycle through the thin pool and this one: its prices promise a
    profit, and one unit of WETH buys nothing in its first pool. *)
Definition usdc_weth_v3_dear : Pool :=
  v3_pool 20 USDC WETH 3000 (45 * 2 ^ 96) 1000000 {[ 0 := 1 ]}.

Definition weth_cycle_steep : UniswapLpCycle :=
  cycle_of WETH [weth_usdc_thin; usdc_weth_v3_dear] (Some 2).

(** A V2 pool with a reserve of USDC beyond the 112 bits of a reserve on
    chain, and a cycle through it. *)
Definition usdc_weth_vast : Pool := v2_pool 21 USDC WETH (2 ^ 1100) 2.

Definition weth_cycle_vast : UniswapLpCycle :=
  cycle_of WETH [usdc_weth_vast; weth_usdc] (Some 2).
Definition weth_cycle : UniswapLpCycle :=
  cycle_of WETH [weth_usdc; usdc_weth] (Some 2).
Definition weth_cycle_3 : UniswapLpCycle :=
  cycle_of WETH [weth_usdc; usdc_weth] (Some 3).
Definition weth_cycle_v3 : UniswapLpCycle :=
  cycle_of WETH [weth_usdc; usdc_weth_v3] (Some 2).
Definition weth_cycle_v3_empty : UniswapLpCycle :=
  cycle_of WETH [weth_usdc; usdc_weth_v3_empty] (Some 2).
Definition weth_cycle_dust : UniswapLpCycle :=
  cycle_of WETH [weth_usdc; usdc_weth_dust] (Some 2).
End Examples.

(** ** The profit factor, as specified *)

(** The binary64 number nearest to a rational. *)
Definition nearest_float (q : Q) : result spec_float :=
  arith (PyFloat.int_truediv (Qnum q) (Zpos (Qden q))).

(** The spot price of token0 in token1: [reserves_token1 / reserves_token0]
    for a V2 state, [(sqrt_price_x96 / 2^96)^2] for a V3 state. *)
Definition spot_price (pool_state : PoolState) : Q :=
  match pool_state with
  | V2State s =>
      (inject_Z (reserves_token1 s) / inject_Z (reserves_token0 s))%Q
  | V3State s =>
      ((inject_Z (sqrt_price_x96 s) / inject_Z (2 ^ 96)) ^ 2)%Q
  end.

(** [(fee.denominator - fee.numerator) / fee.denominator]. *)
Definition fee_multiplier (fee : Fraction) : Q :=
  (inject_Z (denominator fee - numerator fee) / inject_Z (denominator fee))%Q.

(** The price in the direction of the hop: the price itself for
    zero-for-one, its reciprocal for one-for-zero. *)
Definition directional_price (zfo : bool) (price : spec_float)
  : result spec_float :=
  if zfo then Ok price else arith (PyFloat.truediv PyFloat.f_1_0 price).

Definition hop_profit_factor (state_overrides : gmap N PoolState)
    (hop : Pool * UniswapPoolSwapVector) : result spec_float :=
  price ← nearest_float (spot_price (effective_state state_overrides hop.1));
  directional ← directional_price (zero_for_one hop.2) price;
  multiplier ← nearest_float (fee_multiplier (hop_fee hop.1 hop.2));
  Ok (PyFloat.mul directional multiplier).

(** The product over the hops, from [1.0]. *)
Definition profit_factor (state_overrides : gmap N PoolState)
    (hops : list (Pool * UniswapPoolSwapVector)) : result spec_float :=
  foldl (fun product hop =>
           p ← product;
           f ← hop_profit_factor state_overrides hop;
           Ok (PyFloat.mul p f))
        (Ok PyFloat.f_1_0) hops.

(** The hop raises neither a liquidity error nor, for a state of the
    other pool kind, an attribute error. *)
Definition passes_liquidity_check (pool : Pool)
    (vector : UniswapPoolSwapVector) (pool_state : PoolState) : Prop :=
  match hop_price pool vector pool_state with
  | Raise (ZeroLiquidityError _ _) | Raise AttributeError => False
  | _ => True
  end.

(** The fees of a V2 pool are [Fraction]s: their denominators are
    positive. *)
Definition fees_are_fractions (pool : Pool) : Prop :=
  match pool with
  | V2 p => 0 < denominator (fee_token0 p) /\ 0 < denominator (fee_token1 p)
  | V3 _ => True
  end.

(** The state is one of the pool's kind. *)
Definition state_of_kind (pool : Pool) (pool_state : PoolState) : bool :=
  match pool, pool_state with
  | V2 _, V2State _ | V3 _, V3State _ => true
  | _, _ => false
  end.

Definition is_arithmetic_error {A : Type} (r : result A) : bool :=
  match r with
  | Raise (ArithmeticError _) => true
  | _ => false
  end.

(** A fee that takes between nothing and all of the amount. *)
Definition fee_in_range (fee : Fraction) : Prop :=
  0 < denominator fee /\ 0 <= numerator fee <= denominator fee.

(** The state is one of the pool's kind, and the numbers are in the
    ranges of their types: reserves of 112 bits and fees between 0 and 1
    for a V2 pool, a square-root price of 160 bits and a fee of 32 bits
    for a V3 pool. *)
Definition in_range (pool : Pool) (pool_state : PoolState) : Prop :=
  match pool, pool_state with
  | V2 p, V2State s =>
      0 <= reserves_token0 s < 2 ^ 112 /\ 0 <= reserves_token1 s < 2 ^ 112
      /\ fee_in_range (fee_token0 p) /\ fee_in_range (fee_token1 p)
  | V3 p, V3State s =>
      0 <= sqrt_price_x96 s < 2 ^ 160 /\ 0 <= _fee p < 2 ^ 32
  | _, _ => False
  end.

(** The reserve the hop pays out of. *)
Definition output_reserve (s : UniswapV2PoolState) (zfo : bool) : Z :=
  if zfo then reserves_token1 s else reserves_token0 s.

(** The V3 states the check rejects. *)
Definition v3_without_liquidity (s : UniswapV3PoolState) (zfo : bool) : Prop :=
  sqrt_price_x96 s = 0
  \/ tick_bitmap s = ∅
  \/ (liquidity s = 0
      /\ ((sqrt_price_x96 s = TickMath.MIN_SQRT_RATIO + 1 /\ zfo = true)
          \/ (sqrt_price_x96 s = TickMath.MAX_SQRT_RATIO - 1 /\ zfo = false))).

(** ** Chains of swap vectors *)

(** The vector follows the pool, in one direction or the other. *)
Definition oriented (pool : Pool) (v : UniswapPoolSwapVector) : Prop :=
  (zero_for_one v = true /\ token_in v = token0 pool
   /\ token_out v = token1 pool)
  \/ (zero_for_one v = false /\ token_in v = token1 pool
      /\ token_out v = token0 pool).

(** The vectors follow the pools, start from [input_token], and each
    takes in what the one before gives out. *)
Definition linked (input_token : Erc20Token) (pools : list Pool)
    (vectors : list UniswapPoolSwapVector) : Prop :=
  Forall2 oriented pools vectors
  /\ (forall v, vectors !! 0%nat = Some v -> token_in v = input_token)
  /\ (forall i v w, vectors !! i = Some v -> vectors !! S i = Some w ->
                    token_out v = token_in w).

(** ** The calls of a swap along the path *)

Section Calls.

Variable calculate_tokens_out_from_tokens_in :
  Pool -> Erc20Token -> Z -> option PoolState -> result Z.

Variable state_overrides : gmap N PoolState.
Variable token_in_quantity : Z.

(** The amount that goes into hop [i]. *)
Definition hop_input (i : nat) (token_out_quantity : Z) : Z :=
  match i with
  | O => token_in_quantity
  | S _ => token_out_quantity
  end.

Definition hop_call (i : nat) (token_out_quantity : Z)
    (hop : Pool * UniswapPoolSwapVector) : result Z :=
  calculate_tokens_out_from_tokens_in hop.1 (token_in hop.2)
    (hop_input i token_out_quantity) (state_overrides !! address hop.1).

(** From hop [i] on every call returns, each output feeding the next
    hop: the amounts in and out of each hop. *)
Inductive calls_return
  : nat -> Z -> list (Pool * UniswapPoolSwapVector) -> list (Z * Z) -> Prop :=
| calls_return_nil i out : calls_return i out [] []
| calls_return_cons i out hop rest o amounts :
    hop_call i out hop = Ok o ->
    calls_return (S i) o rest amounts ->
    calls_return i out (hop :: rest) ((hop_input i out, o) :: amounts).

(** From hop [i] on the calls return until one raises [e]. *)
Inductive calls_raise
  : nat -> Z -> list (Pool * UniswapPoolSwapVector) -> exn -> Prop :=
| calls_raise_here i out hop rest e :
    hop_call i out hop = Raise e ->
    calls_raise i out (hop :: rest) e
| calls_raise_later i out hop rest o e :
    hop_call i out hop = Ok o ->
    calls_raise (S i) o rest e ->
    calls_raise i out (hop :: rest) e.

(** From hop [i] on the calls return positive or negative amounts until
    the one of [pool] returns zero. *)
Inductive calls_reach_zero
  : nat -> Z -> list (Pool * UniswapPoolSwapVector) -> Pool -> Prop :=
| calls_reach_zero_here i out hop rest :
    hop_call i out hop = Ok 0 ->
    calls_reach_zero i out (hop :: rest) hop.1
| calls_reach_zero_later i out hop rest o pool :
    hop_call i out hop = Ok o ->
    o <> 0 ->
    calls_reach_zero (S i) o rest pool ->
    calls_reach_zero i out (hop :: rest) pool.

(** From hop [i] on the calls return amounts other than zero until one
    raises [e]. *)
Inductive calls_raise_after_outputs
  : nat -> Z -> list (Pool * UniswapPoolSwapVector) -> exn -> Prop :=
| calls_raise_after_outputs_here i out hop rest e :
    hop_call i out hop = Raise e ->
    calls_raise_after_outputs i out (hop :: rest) e
| calls_raise_after_outputs_later i out hop rest o e :
    hop_call i out hop = Ok o ->
    o <> 0 ->
    calls_raise_after_outputs (S i) o rest e ->
    calls_raise_after_outputs i out (hop :: rest) e.

End Calls.

(** What [_build_amounts_out] raises for an exception of a pool. *)
Definition build_exception (e : exn) : exn :=
  match e with
  | LiquidityPoolError l => ArbitrageError (Calculate_tokens_out l)
  | _ => e
  end.

(** The amounts are those of a pool of this kind. *)
Definition amounts_of_kind (pool : Pool) (amounts : PoolSwapAmounts) : Prop :=
  match pool, amounts with
  | V2 _, UniswapV2PoolSwapAmounts _ => True
  | V3 _, UniswapV3PoolSwapAmounts _ _ _ => True
  | _, _ => False
  end.

(** ** The attributes that change: [pool_states] and [best] *)

(** The dictionary [best]; its entry ["swap_pools"] is the tuple
    [self.swap_pools] itself and is read from the cycle. *)
Record Best := {
  best_input_token : Erc20Token;
  last_swap_amount : Z;
  best_profit_amount : Z;
  best_profit_token : Erc20Token;
  strategy : string;
  swap_amount : Z;
  swap_pool_amounts : list PoolSwapAmounts
}.

Record CycleState := {
  pool_states : gmap N (option PoolState);
  best : Best
}.

(** [pool_states] and [best] as the constructor leaves them. *)
Definition initial_state (self : UniswapLpCycle) : CycleState :=
  {| pool_states :=
       foldl (fun states pool => <[address pool := None]> states) ∅
         (swap_pools self);
     best :=
       {| best_input_token := input_token self;
          last_swap_amount := 0;
          best_profit_amount := 0;
          best_profit_token := input_token self;
          strategy := "cycle";
          swap_amount := 0;
          swap_pool_amounts := [] |} |}.

(** [_update_pool_states]: the states of [pools], a later pool of an
    address replacing an earlier one. *)
Definition _update_pool_states (st : CycleState) (pools : list Pool)
  : CycleState :=
  {| pool_states :=
       foldl (fun states pool => <[address pool := Some (state pool)]> states)
         (pool_states st) pools;
     best := best st |}.

(** What notifies a cycle: a pool, or a publisher of another class. *)
Inductive Publisher :=
| Pool_publisher (pool : Pool)
| Other_publisher.

Definition notify (st : CycleState) (publisher : Publisher) : CycleState :=
  match publisher with
  | Pool_publisher pool => _update_pool_states st [pool]
  | Other_publisher => st
  end.

Definition clear_best (st : CycleState) : CycleState :=
  {| pool_states := pool_states st;
     best :=
       {| best_input_token := best_input_token (best st);
          last_swap_amount := last_swap_amount (best st);
          best_profit_amount := 0;
          best_profit_token := best_profit_token (best st);
          strategy := strategy (best st);
          swap_amount := 0;
          swap_pool_amounts := [] |} |}.

(** [self.best.update] of [calculate_arbitrage]. *)
Definition record_best (st : CycleState) (calculation : ArbitrageCalculationResult)
  : CycleState :=
  {| pool_states := pool_states st;
     best :=
       {| best_input_token := best_input_token (best st);
          last_swap_amount := input_amount calculation;
          best_profit_amount := profit_amount calculation;
          best_profit_token := best_profit_token (best st);
          strategy := strategy (best st);
          swap_amount := input_amount calculation;
          swap_pool_amounts := swap_amounts calculation |} |}.

Section StatefulCalculation.

Variable calculate_tokens_out_from_tokens_in :
  Pool -> Erc20Token -> Z -> option PoolState -> result Z.

Variable minimize_scalar :
  (spec_float -> result spec_float) -> minimize_args -> result OptimizeResult.

(** [calculate_arbitrage]: what it returns and the attributes after it;
    when it raises the attributes are as before. *)
Definition calculate_arbitrage (self : UniswapLpCycle) (st : CycleState)
    (override_state : option (list (Pool * Override)))
  : result (bool * (Z * Z) * CycleState) :=
  calculation ← _calculate calculate_tokens_out_from_tokens_in minimize_scalar
                  self override_state;
  let st' :=
    match override_state with
    | None => record_best st calculation
    | Some _ => st
    end in
  let profitable := 0 <? profit_amount calculation in
  Ok (profitable, (input_amount calculation, profit_amount calculation), st').

(** [calculate_arbitrage_return_best]: the id and [best]. *)
Definition calculate_arbitrage_return_best (self : UniswapLpCycle)
    (st : CycleState) (override_state : option (list (Pool * Override)))
  : result (N * Best * CycleState) :=
  r ← calculate_arbitrage self st override_state;
  Ok (id self, best r.2, r.2).

(** The pool as it is when its state, or its fee, has changed. *)
Definition same_pool (pool pool' : Pool) : Prop :=
  match pool, pool' with
  | V2 p, V2 p' =>
      v2_address p' = v2_address p /\ v2_token0 p' = v2_token0 p
      /\ v2_token1 p' = v2_token1 p
  | V3 p, V3 p' =>
      v3_address p' = v3_address p /\ v3_token0 p' = v3_token0 p
      /\ v3_token1 p' = v3_token1 p
  | _, _ => False
  end.

(** The cycle as it is when its pools have changed. *)
Definition same_path (self self' : UniswapLpCycle) : Prop :=
  id self' = id self /\ input_token self' = input_token self
  /\ max_input self' = max_input self
  /\ _swap_vectors self' = _swap_vectors self
  /\ Forall2 same_pool (swap_pools self) (swap_pools self').

(** The attributes a cycle can get to: by notifications, by clearing
    [best] and by arbitrage calculations that return, the states of the
    pools changing in between. *)
Inductive reachable (self : UniswapLpCycle) : CycleState -> Prop :=
| reachable_initial : reachable self (initial_state self)
| reachable_notify st publisher :
    reachable self st -> reachable self (notify st publisher)
| reachable_clear_best st :
    reachable self st -> reachable self (clear_best st)
| reachable_calculate_arbitrage st self' override_state r st' :
    reachable self st ->
    same_path self self' ->
    calculate_arbitrage self' st override_state = Ok (r, st') ->
    reachable self st'.

End StatefulCalculation.

(** ** [calculate_with_pool] *)

Inductive with_pool_exn :=
| ValueError_sparse_bitmap
| Check_raised (e : exn).

(** [calculate_with_pool]: the exception raised, or the override state
    with which [_calculate] is handed to the executor. *)
Definition calculate_with_pool (self : UniswapLpCycle)
    (override_state : option (list (Pool * Override)))
  : with_pool_exn + option (list (Pool * Override)) :=
  if existsb (fun b : bool => b)
       (omap (fun pool => match pool with
                          | V3 p => Some (_sparse_bitmap p)
                          | V2 _ => None
                          end) (swap_pools self))
  then inl ValueError_sparse_bitmap
  else
    match _pre_calculation_check self override_state with
    | Raise e => inl (Check_raised e)
    | Ok _ => inr override_state
    end.

(** ** [generate_payloads] *)

(** An argument handed to [eth_abi.encode]. *)
Inductive abi_value :=
| abi_address (a : N)
| abi_int (n : Z)
| abi_bool (b : bool)
| abi_bytes (b : list Byte.byte).

(** What the [try] of [generate_payloads] catches. *)
Inductive payload_failure :=
| Encoding_failed
| AttributeError_amounts
| IndexError_next_pool.

Inductive payload_exn :=
| ArbitrageError_pool_amounts_empty
| ArbitrageError_catch_all (cause : payload_failure)
| IndexError_swap_pools.

#[global] Instance payload_bind : MBind (sum payload_failure) :=
  fun A B f m => match m with inr a => f a | inl e => inl e end.

Section Payloads.

(** [Web3.keccak(text=...)]. *)
Variable keccak_text : string -> list Byte.byte.

(** [eth_abi.encode(types, args)]; [None] when it raises. *)
Variable abi_encode : list string -> list abi_value -> option (list Byte.byte).

(** The identity of the pool object at each index of [swap_pools]. *)
Variable object_id : nat -> N.

(** [keccak(text=signature)[:4] + eth_abi.encode(types, args)]. *)
Definition calldata (signature : string) (types : list string)
    (args : list abi_value) : payload_failure + list Byte.byte :=
  match abi_encode types args with
  | Some encoded => inr (take 4 (keccak_text signature) ++ encoded)
  | None => inl Encoding_failed
  end.

(** [swap_pool is last_pool], for the pool at index [i]. *)
Definition is_last_pool (self : UniswapLpCycle) (i : nat) : bool :=
  (object_id i =? object_id (length (swap_pools self) - 1))%N.

(** Where the swap of hop [i] sends its output. *)
Definition swap_destination_address (self : UniswapLpCycle) (from_address : N)
    (i : nat) : payload_failure + N :=
  if is_last_pool self i then inr from_address
  else
    match swap_pools self !! S i with
    | Some (V2 next_pool) => inr (v2_address next_pool)
    | Some (V3 _) => inr from_address
    | None => inl IndexError_next_pool
    end.

(** The payload of the swap at a pool. *)
Definition swap_payload (swap_pool : Pool) (_swap_amounts : PoolSwapAmounts)
    (swap_destination_address : N) : payload_failure + (N * list Byte.byte * Z) :=
  match swap_pool, _swap_amounts with
  | V2 p, UniswapV2PoolSwapAmounts (amount0, amount1) =>
      data ← calldata "swap(uint256,uint256,address,bytes)"
               ["uint256"; "uint256"; "address"; "bytes"]
               [abi_int amount0; abi_int amount1;
                abi_address swap_destination_address; abi_bytes []];
      inr (v2_address p, data, 0)
  | V3 p, UniswapV3PoolSwapAmounts amount_specified zfo sqrt_price_limit =>
      data ← calldata "swap(address,bool,int256,uint160,bytes)"
               ["address"; "bool"; "int256"; "uint160"; "bytes"]
               [abi_address swap_destination_address; abi_bool zfo;
                abi_int amount_specified; abi_int sqrt_price_limit;
                abi_bytes []];
      inr (v3_address p, data, 0)
  | _, _ => inl AttributeError_amounts
  end.

(** The loop over the pools and their amounts, from index [i] on. *)
Fixpoint swap_payloads (self : UniswapLpCycle) (from_address : N) (i : nat)
    (hops : list (Pool * PoolSwapAmounts))
  : payload_failure + list (N * list Byte.byte * Z) :=
  match hops with
  | [] => inr []
  | (swap_pool, _swap_amounts) :: rest =>
      destination ← swap_destination_address self from_address i;
      payload ← swap_payload swap_pool _swap_amounts destination;
      payloads ← swap_payloads self from_address (S i) rest;
      inr (payload :: payloads)
  end.

(** The transfer of the input to a first pool of kind V2. *)
Definition transfer_payloads (self : UniswapLpCycle) (first_pool : Pool)
    (swap_amount : Z) : payload_failure + list (N * list Byte.byte * Z) :=
  match first_pool with
  | V2 p =>
      data ← calldata "transfer(address,uint256)" ["address"; "uint256"]
               [abi_address (v2_address p); abi_int swap_amount];
      inr [(token_address (input_token self), data, 0)]
  | V3 _ => inr []
  end.

(** [generate_payloads]; [from_address] is an address already, so that
    [to_checksum_address] returns it. *)
Definition generate_payloads (self : UniswapLpCycle) (st : CycleState)
    (from_address : N) (amount : option Z)
    (amounts : option (list PoolSwapAmounts))
  : payload_exn + list (N * list Byte.byte * Z) :=
  let swap_amount := default (swap_amount (best st)) amount in
  let pool_swap_amounts := default (swap_pool_amounts (best st)) amounts in
  match pool_swap_amounts with
  | [] => inl ArbitrageError_pool_amounts_empty
  | _ :: _ =>
      match swap_pools self with
      | [] => inl IndexError_swap_pools
      | first_pool :: _ =>
          match
            transfer ← transfer_payloads self first_pool swap_amount;
            swaps ← swap_payloads self from_address 0
                      (zip (swap_pools self) pool_swap_amounts);
            inr (transfer ++ swaps)
          with
          | inl cause => inl (ArbitrageError_catch_all cause)
          | inr payloads => inr payloads
          end
      end
  end.

End Payloads.

(** ** Pickling: [__getstate__] and [__setstate__] *)

(** The value of an attribute of a cycle. *)
Inductive attribute :=
| attr_None
| attr_lock
| attr_swap_vectors (vectors : list UniswapPoolSwapVector)
| attr_best (b : Best)
| attr_id (n : N)
| attr_token (t : Erc20Token)
| attr_int (z : Z)
| attr_name (s : string)
| attr_pool_states (states : gmap N (option PoolState))
| attr_swap_pools (pools : list Pool).

Definition __slots__ : list string :=
  ["_lock"; "_swap_vectors"; "best"; "id"; "input_token"; "gas_estimate";
   "max_input"; "name"; "pool_states"; "swap_pools"].

Definition dropped_attributes : list string := ["_lock"; "_subscribers"].

Inductive getstate_exn :=
| AttributeError_lock
| Lock_is_no_context_manager.

(** [__getstate__] of an object given by the attributes that are set: the
    class has slots, so the branch over [__dict__] is never taken. *)
Definition __getstate__ (self : gmap string attribute)
  : getstate_exn + gmap string attribute :=
  match self !! "_lock" with
  | None => inl AttributeError_lock
  | Some attr_lock =>
      inr (list_to_map
             ((fun attr_name =>
                 (attr_name, default attr_None (self !! attr_name)))
                <$> filter (fun attr_name => attr_name ∉ dropped_attributes)
                      __slots__))
  | Some _ => inl Lock_is_no_context_manager
  end.

(** [__setstate__]: every attribute of the state is set; [None] when
    [setattr] raises, which it does for a name that is no slot on an
    object without a [__dict__]. *)
Definition __setstate__ (has_dict : bool) (self : gmap string attribute)
    (state : gmap string attribute) : option (gmap string attribute) :=
  if has_dict
     || bool_decide (map_Forall (fun attr_name _ => attr_name ∈ __slots__) state)
  then Some (state ∪ self)
  else None.

(** The attributes of a cycle after its construction: the lock, the
    name, no gas estimate, and the rest. *)
Definition attributes_of (self : UniswapLpCycle) (st : CycleState)
    (name : string) : gmap string attribute :=
  list_to_map
    [("_lock", attr_lock);
     ("_swap_vectors", attr_swap_vectors (_swap_vectors self));
     ("best", attr_best (best st));
     ("id", attr_id (id self));
     ("input_token", attr_token (input_token self));
     ("gas_estimate", attr_None);
     ("max_input", attr_int (max_input self));
     ("name", attr_name name);
     ("pool_states", attr_pool_states (pool_states st));
     ("swap_pools", attr_swap_pools (swap_pools self))].

(** The cycle an object's attributes make up, when they are all there. *)
Definition cycle_of_attributes (object : gmap string attribute)
  : option (UniswapLpCycle * CycleState) :=
  match object !! "id", object !! "input_token", object !! "max_input",
        object !! "swap_pools", object !! "_swap_vectors",
        object !! "pool_states", object !! "best" with
  | Some (attr_id n), Some (attr_token t), Some (attr_int m),
    Some (attr_swap_pools pools), Some (attr_swap_vectors vectors),
    Some (attr_pool_states states), Some (attr_best b) =>
      Some ({| id := n; input_token := t; max_input := m;
               swap_pools := pools; _swap_vectors := vectors |},
            {| pool_states := states; best := b |})
  | _, _, _, _, _, _, _ => None
  end.

(** ** The encoder of the examples *)

(** The 32 bytes of a word, the most significant first. *)
Definition word32 (n : Z) : list Byte.byte :=
  (fun k : nat =>
     default Byte.x00
       (Byte.of_N (Z.to_N ((n / 256 ^ Z.of_nat (31 - k)) mod 256))))
    <$> seq 0 32.

(** An encoder that takes whole numbers from [-2^255] up to [2^256] and
    writes every argument but the bytes as a word. *)
Definition example_abi_encode (types : list string) (args : list abi_value)
  : option (list Byte.byte) :=
  (fun words : list (list Byte.byte) => concat words)
    <$> mapM (fun arg =>
                match arg with
                | abi_address a => Some (word32 (Z.of_N a))
                | abi_int n =>
                    if (- 2 ^ 255 <=? n) && (n <? 2 ^ 256)
                    then Some (word32 n) else None
                | abi_bool b => Some (word32 (if b then 1 else 0))
                | abi_bytes b => Some b
                end) args.

(** A stand-in for the hash: the bytes of the text. *)
Definition example_keccak_text (text : string) : list Byte.byte :=
  String.list_byte_of_string text.

(** Pool objects that are all different: the index is the identity. *)
Definition example_object_id (i : nat) : N := N.of_nat i.

(** * Properties *)

(** ** The result monad *)

Lemma bind_Ok {A B : Type} (m : result A) (f : A -> result B) (b : B) :
  m ≫= f = Ok b -> exists a, m = Ok a /\ f a = Ok b.
Proof. destruct m as [a|e]; [eauto | discriminate]. Qed.

Lemma bind_Raise {A B : Type} (m : result A) (f : A -> result B) (e : exn) :
  m ≫= f = Raise e -> m = Raise e \/ exists a, m = Ok a /\ f a = Raise e.
Proof. destruct m as [a|e']; [eauto | intros [= ->]; left; reflexivity]. Qed.

Ltac bind_inv H :=
  let a := fresh "a" in
  let Ha := fresh "Ha" in
  apply bind_Ok in H as (a & Ha & H).

(** ** The constructor *)

Lemma token_eqb_eq (a b : Erc20Token) : token_eqb a b = true <-> a = b.
Proof.
  destruct a as [x], b as [y]; unfold token_eqb; simpl.
  rewrite N.eqb_eq. split; [intros ->; reflexivity | intros [= ->]; reflexivity].
Qed.

Lemma swap_vector_at_Ok (expected : Erc20Token) (pool : Pool)
    (v : UniswapPoolSwapVector) :
  swap_vector_at expected pool = Ok v ->
  oriented pool v /\ token_in v = expected.
Proof.
  unfold swap_vector_at, oriented.
  destruct (token_eqb expected (token0 pool)) eqn:E0.
  - apply token_eqb_eq in E0. intros [= <-]; simpl. auto.
  - destruct (token_eqb expected (token1 pool)) eqn:E1; [|discriminate].
    apply token_eqb_eq in E1. intros [= <-]; simpl. auto 6.
Qed.

Lemma swap_vector_at_oriented (pool : Pool) (w : UniswapPoolSwapVector) :
  oriented pool w ->
  exists v, swap_vector_at (token_in w) pool = Ok v /\ token_out v = token_out w.
Proof.
  unfold swap_vector_at.
  intros [(_ & Hin & Hout) | (_ & Hin & Hout)].
  - rewrite (proj2 (token_eqb_eq _ _) Hin). eexists; split; [reflexivity|]; auto.
  - destruct (token_eqb (token_in w) (token0 pool)) eqn:E0.
    + apply token_eqb_eq in E0. eexists; split; [reflexivity|]; simpl; congruence.
    + rewrite (proj2 (token_eqb_eq _ _) Hin).
      eexists; split; [reflexivity|]; auto.
Qed.

Lemma swap_vector_at_Raise (expected : Erc20Token) (pool : Pool) (e : exn) :
  swap_vector_at expected pool = Raise e -> e = ValueError_input_token.
Proof.
  unfold swap_vector_at.
  repeat case_match; congruence.
Qed.

Lemma linked_cons (t : Erc20Token) (p : Pool) (ps : list Pool)
    (v : UniswapPoolSwapVector) (vs : list UniswapPoolSwapVector) :
  linked t (p :: ps) (v :: vs)
  <-> oriented p v /\ token_in v = t /\ linked (token_out v) ps vs.
Proof.
  unfold linked. split.
  - intros (HF & Hhead & Hlink). apply Forall2_cons in HF as [Ho HF].
    repeat split; auto.
    + intros w Hw. symmetry. apply (Hlink 0%nat v w); [reflexivity | exact Hw].
    + intros i a b Ha Hb. apply (Hlink (S i) a b); assumption.
  - intros (Ho & Hin & HF & Hhead & Hlink). repeat split.
    + constructor; assumption.
    + intros w [= <-]. assumption.
    + intros [|i] a b Ha Hb.
      * injection Ha as <-. symmetry. apply Hhead. exact Hb.
      * apply (Hlink i a b); assumption.
Qed.

Lemma linked_nil (t : Erc20Token) : linked t [] [].
Proof.
  unfold linked. repeat split; [constructor | |]; intros; discriminate.
Qed.

Lemma swap_vectors_from_linked (pools : list Pool) :
  forall (expected : Erc20Token) (vectors : list UniswapPoolSwapVector),
    swap_vectors_from expected pools = Ok vectors ->
    linked expected pools vectors.
Proof.
  induction pools as [|pool rest IH]; intros expected vectors H; simpl in H.
  - injection H as <-. apply linked_nil.
  - bind_inv H. bind_inv H. injection H as <-.
    apply swap_vector_at_Ok in Ha as [Ho Hin].
    apply linked_cons. auto.
Qed.

Lemma swap_vectors_from_complete (pools : list Pool) :
  forall (expected : Erc20Token) (vectors : list UniswapPoolSwapVector),
    linked expected pools vectors ->
    exists vs, swap_vectors_from expected pools = Ok vs.
Proof.
  induction pools as [|pool rest IH]; intros expected vectors H; simpl.
  - eauto.
  - destruct vectors as [|w ws].
    { destruct H as [HF _]. inversion HF. }
    apply linked_cons in H as (Ho & Hin & Hrest). subst expected.
    destruct (swap_vector_at_oriented pool w Ho) as (v & -> & Hout). simpl.
    rewrite Hout. destruct (IH _ _ Hrest) as (vs & ->). simpl. eauto.
Qed.

Lemma swap_vectors_from_Raise (pools : list Pool) :
  forall (expected : Erc20Token) (e : exn),
    swap_vectors_from expected pools = Raise e -> e = ValueError_input_token.
Proof.
  induction pools as [|pool rest IH]; intros expected e H; simpl in H.
  - discriminate.
  - apply bind_Raise in H as [H | (v & _ & H)].
    + eapply swap_vector_at_Raise; eassumption.
    + apply bind_Raise in H as [H | (vs & _ & H)]; [eauto | discriminate].
Qed.

Lemma init_Ok (token : Erc20Token) (pools : list Pool) (n : N)
    (m : option Z) (self : UniswapLpCycle) :
  (__init__ token pools n m).2 = Ok self ->
  exists vectors,
    swap_vectors_from token pools = Ok vectors
    /\ self = {| id := n; input_token := token;
                 max_input := (default_max_input m).2;
                 swap_pools := pools; _swap_vectors := vectors |}.
Proof.
  unfold __init__. destruct (default_max_input m) as [ws mi]; simpl.
  intros H. bind_inv H. injection H as <-. eauto.
Qed.

(** C4 (as amended): a constructed cycle keeps the pools it was given, and
    its swap vectors follow them in a chain that starts from the input
    token, each vector taking in the token the one before gives out; the
    construction succeeds exactly when such a chain exists, and fails with
    the [ValueError] of an unidentified input token otherwise.  That the
    last vector gives out the input token is not checked. *)
Theorem init_swap_vectors_linked (token : Erc20Token) (pools : list Pool)
    (n : N) (m : option Z) :
  (forall self,
      (__init__ token pools n m).2 = Ok self ->
      input_token self = token /\ swap_pools self = pools
      /\ length (_swap_vectors self) = length pools
      /\ linked token pools (_swap_vectors self))
  /\ ((exists vectors, linked token pools vectors) ->
      exists self, (__init__ token pools n m).2 = Ok self)
  /\ (forall e, (__init__ token pools n m).2 = Raise e ->
                e = ValueError_input_token).
Proof.
  split; [|split].
  - intros self H. apply init_Ok in H as (vectors & Hv & ->); simpl.
    apply swap_vectors_from_linked in Hv.
    repeat split; try apply Hv.
    destruct Hv as [HF _]. symmetry. eapply Forall2_length; eassumption.
  - intros (vectors & Hl).
    destruct (swap_vectors_from_complete _ _ _ Hl) as (vs & Hvs).
    unfold __init__. destruct (default_max_input m) as [ws mi]; simpl.
    rewrite Hvs. simpl. eauto.
  - intros e. unfold __init__.
    destruct (default_max_input m) as [ws mi]; simpl. intros H.
    apply bind_Raise in H as [H | (vs & _ & H)]; [|discriminate].
    eapply swap_vectors_from_Raise; eassumption.
Qed.

(** C10 (as amended): without a [max_input] the constructor warns and sets
    it to [100 * 10^18]; a given [max_input] is kept as it is, whatever its
    sign, without a warning; the optimizer's upper bound is that value as a
    float. *)
Theorem init_max_input (token : Erc20Token) (pools : list Pool) (n : N)
    (m : option Z) (self : UniswapLpCycle) :
  (__init__ token pools n m).2 = Ok self ->
  match m with
  | None =>
      (__init__ token pools n m).1 = [No_maximum_input_provided]
      /\ max_input self = 100 * 10 ^ 18
  | Some given =>
      (__init__ token pools n m).1 = [] /\ max_input self = given
  end
  /\ (forall args,
        optimizer_args self = Ok args ->
        method args = Bounded
        /\ arith (PyFloat.of_int (max_input self)) = Ok (bounds args).2).
Proof.
  intros H. split.
  - apply init_Ok in H as (vectors & _ & ->).
    unfold __init__. destruct m as [given|]; simpl; auto.
  - intros args Ha. unfold optimizer_args in Ha.
    destruct (arith (PyFloat.of_int (max_input self))) as [upper|e];
      [|discriminate].
    simpl in Ha. injection Ha as <-. simpl. auto.
Qed.

Section ConstructorExamples.
Import Examples.

(** A path that ends on another token than it starts from. *)
Lemma init_accepts_open_path :
  exists self v,
    (__init__ WETH [weth_usdc; usdc_wbtc] 7 (Some 1000)).2 = Ok self
    /\ last (_swap_vectors self) = Some v
    /\ token_out v <> input_token self.
Proof.
  do 2 eexists. split; [reflexivity | split; [reflexivity | discriminate]].
Qed.

Lemma init_swap_vectors_linked_witness :
  exists self,
    (__init__ WETH [weth_usdc; usdc_weth] 7 (Some 2)).2 = Ok self
    /\ linked WETH [weth_usdc; usdc_weth] (_swap_vectors self).
Proof.
  eexists. split; [reflexivity|].
  apply (init_swap_vectors_linked WETH [weth_usdc; usdc_weth] 7 (Some 2)).
  reflexivity.
Defined.

(** A cycle built with a maximum input of zero. *)
Lemma init_accepts_zero_max_input :
  exists self,
    __init__ WETH [weth_usdc; usdc_weth] 7 (Some 0) = ([], Ok self)
    /\ ~ 0 < max_input self.
Proof. eexists. split; [reflexivity | simpl; lia]. Qed.

Lemma init_max_input_witness :
  exists self,
    (__init__ WETH [weth_usdc; usdc_weth] 7 None).2 = Ok self
    /\ (__init__ WETH [weth_usdc; usdc_weth] 7 None).1
       = [No_maximum_input_provided]
    /\ max_input self = 100 * 10 ^ 18.
Proof.
  eexists. split; [reflexivity|].
  apply (init_max_input WETH [weth_usdc; usdc_weth] 7 None).
  reflexivity.
Defined.
End ConstructorExamples.

(** ** The pre-calculation check *)

Lemma pre_calculation_loop_app (so : gmap N PoolState)
    (before after : list (Pool * UniswapPoolSwapVector)) :
  forall pf : spec_float,
    pre_calculation_loop so pf (before ++ after)
    = pre_calculation_loop so pf before
        ≫= fun pf' => pre_calculation_loop so pf' after.
Proof.
  induction before as [|[pool vector] rest IH]; intros pf; simpl.
  - reflexivity.
  - destruct (hop_step so pool vector) as [factor|e]; simpl; [apply IH | reflexivity].
Qed.

(** The check raises what the first failing hop raises. *)
Lemma pre_calculation_check_raises (self : UniswapLpCycle)
    (override_state : option (list (Pool * Override)))
    (before after : list (Pool * UniswapPoolSwapVector))
    (pool : Pool) (vector : UniswapPoolSwapVector) (pf : spec_float) (e : exn) :
  zip (swap_pools self) (_swap_vectors self)
  = before ++ (pool, vector) :: after ->
  pre_calculation_loop (_sort_overrides override_state) PyFloat.f_1_0 before
  = Ok pf ->
  hop_price pool vector
    (effective_state (_sort_overrides override_state) pool) = Raise e ->
  _pre_calculation_check self override_state = Raise e.
Proof.
  intros Hz Hb Hp. unfold _pre_calculation_check.
  rewrite Hz, pre_calculation_loop_app, Hb. simpl.
  unfold hop_step. rewrite Hp. reflexivity.
Qed.

Lemma arith_not_pool_error {A : Type} (r : PyFloat.arith_error + A) :
  (exists a, arith r = Ok a) \/ (exists e, arith r = Raise (ArithmeticError e)).
Proof. destruct r; simpl; eauto. Qed.

Lemma v2_hop_price (p : LiquidityPool) (vector : UniswapPoolSwapVector)
    (s : UniswapV2PoolState) :
  reserves_token0 s <> 0 -> reserves_token1 s <> 0 ->
  hop_price (V2 p) vector (V2State s)
  = if output_reserve s (zero_for_one vector) =? 1 then
      Raise (ZeroLiquidityError (v2_address p)
               (if zero_for_one vector then V2_no_liquidity_0_to_1
                else V2_no_liquidity_1_to_0))
    else arith (PyFloat.int_truediv (reserves_token1 s) (reserves_token0 s)).
Proof.
  intros H0 H1. unfold hop_price, output_reserve. simpl address.
  apply Z.eqb_neq in H0, H1. rewrite H0, H1. simpl.
  destruct (zero_for_one vector); simpl.
  - rewrite andb_true_r, andb_false_r. reflexivity.
  - rewrite andb_false_r, andb_true_r. reflexivity.
Qed.

(** C9: in a cycle whose earlier hops pass, a V2 hop with both reserves
    nonzero is rejected with [ZeroLiquidityError] when the reserve it pays
    out of is exactly 1; for every other such state the hop passes the
    liquidity check and its price is [reserves_token1 / reserves_token0]. *)
Theorem v2_hop_last_unit_unreachable (self : UniswapLpCycle)
    (override_state : option (list (Pool * Override)))
    (before after : list (Pool * UniswapPoolSwapVector))
    (p : LiquidityPool) (vector : UniswapPoolSwapVector)
    (s : UniswapV2PoolState) (pf : spec_float) :
  zip (swap_pools self) (_swap_vectors self)
  = before ++ (V2 p, vector) :: after ->
  pre_calculation_loop (_sort_overrides override_state) PyFloat.f_1_0 before
  = Ok pf ->
  effective_state (_sort_overrides override_state) (V2 p) = V2State s ->
  reserves_token0 s <> 0 -> reserves_token1 s <> 0 ->
  (output_reserve s (zero_for_one vector) = 1 ->
   _pre_calculation_check self override_state
   = Raise (ZeroLiquidityError (v2_address p)
              (if zero_for_one vector then V2_no_liquidity_0_to_1
               else V2_no_liquidity_1_to_0)))
  /\ (output_reserve s (zero_for_one vector) <> 1 ->
      passes_liquidity_check (V2 p) vector (V2State s)
      /\ hop_price (V2 p) vector (V2State s)
         = arith (PyFloat.int_truediv (reserves_token1 s) (reserves_token0 s))).
Proof.
  intros Hz Hb Hs H0 H1.
  pose proof (v2_hop_price p vector s H0 H1) as Hp. split; intros Ho.
  - eapply pre_calculation_check_raises; [eassumption | eassumption |].
    rewrite Hs, Hp. apply Z.eqb_eq in Ho. rewrite Ho. reflexivity.
  - apply Z.eqb_neq in Ho. rewrite Ho in Hp. split; [|exact Hp].
    unfold passes_liquidity_check. rewrite Hp.
    destruct (arith_not_pool_error
                (PyFloat.int_truediv (reserves_token1 s) (reserves_token0 s)))
      as [(a & ->) | (e & ->)]; exact I.
Qed.

Lemma v3_hop_price_raises (p : V3LiquidityPool)
    (vector : UniswapPoolSwapVector) (s : UniswapV3PoolState) :
  v3_without_liquidity s (zero_for_one vector) ->
  exists msg,
    hop_price (V3 p) vector (V3State s)
    = Raise (ZeroLiquidityError (v3_address p) msg).
Proof.
  unfold hop_price. simpl address. intros H.
  destruct (sqrt_price_x96 s =? 0) eqn:Es; [eauto|].
  destruct (bool_decide (tick_bitmap s = ∅)) eqn:Eb; [eauto|].
  destruct H as [H | [H | (Hl & H)]].
  - apply Z.eqb_eq in H. congruence.
  - apply bool_decide_eq_false in Eb. contradiction.
  - apply Z.eqb_eq in Hl. rewrite Hl. simpl.
    destruct H as [(Hp & Hz) | (Hp & Hz)]; apply Z.eqb_eq in Hp.
    + rewrite Hp, Hz. simpl. eauto.
    + rewrite Hp, Hz. simpl.
      destruct (sqrt_price_x96 s =? TickMath.MIN_SQRT_RATIO + 1); simpl; eauto.
Qed.

Lemma hop_price_outcome (pool : Pool) (vector : UniswapPoolSwapVector)
    (pool_state : PoolState) :
  state_of_kind pool pool_state = true ->
  (exists price, hop_price pool vector pool_state = Ok price)
  \/ (exists msg,
        hop_price pool vector pool_state
        = Raise (ZeroLiquidityError (address pool) msg))
  \/ (exists e, hop_price pool vector pool_state = Raise (ArithmeticError e)).
Proof.
  destruct pool as [p|p], pool_state as [s|s]; try discriminate; intros _;
    unfold hop_price;
    repeat match goal with
      | |- context [if ?c then _ else _] => destruct c; [eauto|]
      end;
    match goal with
    | |- context [arith ?r] =>
        destruct (arith_not_pool_error r) as [(a & ->) | (e & ->)]; eauto
    end.
Qed.

Lemma hop_factor_outcome (vector : UniswapPoolSwapVector) (price : spec_float)
    (fee : Fraction) :
  (exists factor, hop_factor vector price fee = Ok factor)
  \/ (exists e, hop_factor vector price fee = Raise (ArithmeticError e)).
Proof.
  unfold hop_factor.
  destruct (zero_for_one vector); simpl.
  2: destruct (arith_not_pool_error (PyFloat.truediv PyFloat.f_1_0 price))
       as [(a & ->) | (e & ->)]; simpl; [|eauto].
  all: match goal with
       | |- context [arith ?r] =>
           destruct (arith_not_pool_error r) as [(b & ->) | (e & ->)];
           simpl; eauto
       end.
Qed.

Lemma hop_step_outcome (so : gmap N PoolState) (pool : Pool)
    (vector : UniswapPoolSwapVector) :
  state_of_kind pool (effective_state so pool) = true ->
  is_arithmetic_error (hop_step so pool vector) = false ->
  (exists factor, hop_step so pool vector = Ok factor)
  \/ (exists msg,
        hop_step so pool vector
        = Raise (ZeroLiquidityError (address pool) msg)).
Proof.
  intros Hk Ha. unfold hop_step in *.
  destruct (hop_price_outcome pool vector _ Hk)
    as [(price & Hp) | [(msg & Hp) | (e & Hp)]]; rewrite Hp in *; simpl in *.
  - destruct (hop_factor_outcome vector price (hop_fee pool vector))
      as [(f & Hf) | (e & Hf)]; rewrite Hf in *; simpl in *; [eauto | discriminate].
  - eauto.
  - discriminate.
Qed.

Lemma pre_calculation_loop_outcome (so : gmap N PoolState)
    (hops : list (Pool * UniswapPoolSwapVector)) :
  Forall (fun hop =>
            state_of_kind hop.1 (effective_state so hop.1) = true
            /\ is_arithmetic_error (hop_step so hop.1 hop.2) = false) hops ->
  forall pf : spec_float,
    (exists pf', pre_calculation_loop so pf hops = Ok pf')
    \/ (exists a msg,
          pre_calculation_loop so pf hops
          = Raise (ZeroLiquidityError a msg)).
Proof.
  induction 1 as [|[pool vector] rest [Hk Ha] _ IH]; intros pf; simpl.
  - eauto.
  - simpl in Hk, Ha.
    destruct (hop_step_outcome so pool vector Hk Ha) as [(f & ->) | (msg & ->)];
      simpl; [apply IH | eauto].
Qed.

(** *** Floats of numbers in range

    The quotient of two whole numbers is rounded by shifting its
    mantissa; the lemmas follow the number of binary digits of the
    mantissa through the shifts. *)

Lemma digits2_pos_bounds (p : positive) :
  2 ^ (Zpos (digits2_pos p) - 1) <= Zpos p < 2 ^ Zpos (digits2_pos p).
Proof.
  assert (forall d : positive,
             2 ^ (Zpos (Pos.succ d) - 1) = 2 * 2 ^ (Zpos d - 1)
             /\ 2 ^ Zpos (Pos.succ d) = 2 * 2 ^ Zpos d) as Hs.
  { intros d. rewrite Pos2Z.inj_succ. split.
    - replace (Z.succ (Zpos d) - 1) with (Z.succ (Zpos d - 1)) by lia.
      apply Z.pow_succ_r. lia.
    - apply Z.pow_succ_r. lia. }
  induction p as [p IH | p IH |]; cbn [digits2_pos].
  - destruct (Hs (digits2_pos p)) as [-> ->]. lia.
  - destruct (Hs (digits2_pos p)) as [-> ->]. lia.
  - simpl. lia.
Qed.

Lemma Zdigits2_bounds (m : Z) :
  0 < m -> 0 < Zdigits2 m /\ 2 ^ (Zdigits2 m - 1) <= m < 2 ^ Zdigits2 m.
Proof.
  destruct m as [|p|p]; try lia. intros _. simpl.
  split; [lia | apply digits2_pos_bounds].
Qed.

Lemma Zdigits2_nonneg (m : Z) : 0 <= Zdigits2 m.
Proof. destruct m; simpl; lia. Qed.

Lemma Zdigits2_upper (m k : Z) : 0 <= k -> 0 <= m < 2 ^ k -> Zdigits2 m <= k.
Proof.
  intros Hk [H0 Hm]. destruct (Z.eq_dec m 0) as [->|Hn]; [simpl; lia|].
  destruct (Zdigits2_bounds m ltac:(lia)) as (Hd & Hl & _).
  destruct (Z_le_gt_dec (Zdigits2 m) k) as [|Hgt]; [assumption|exfalso].
  assert (2 ^ k <= 2 ^ (Zdigits2 m - 1)) by (apply Z.pow_le_mono_r; lia).
  lia.
Qed.

Lemma Zdigits2_lower (m k : Z) : 0 <= k -> 2 ^ k <= m -> k + 1 <= Zdigits2 m.
Proof.
  intros Hk Hm.
  assert (0 < 2 ^ k) by (apply Z.pow_pos_nonneg; lia).
  destruct (Zdigits2_bounds m ltac:(lia)) as (Hd & _ & Hu).
  destruct (Z_le_gt_dec (k + 1) (Zdigits2 m)) as [|Hgt]; [assumption|exfalso].
  assert (2 ^ Zdigits2 m <= 2 ^ k) by (apply Z.pow_le_mono_r; lia).
  lia.
Qed.

Lemma shr_1_digits (mrs : shr_record) :
  0 <= shr_m mrs ->
  0 <= shr_m (shr_1 mrs)
  /\ Zdigits2 (shr_m (shr_1 mrs)) = Z.max 0 (Zdigits2 (shr_m mrs) - 1).
Proof.
  destruct mrs as [m r s].
  destruct m as [|[p|p|]|p]; cbn [shr_1 shr_m Zdigits2 digits2_pos];
    intros H; rewrite ?Pos2Z.inj_succ; lia.
Qed.

Lemma iter_shr_1_digits (p : positive) :
  forall mrs : shr_record,
    0 <= shr_m mrs ->
    0 <= shr_m (SpecFloat.iter_pos shr_1 p mrs)
    /\ Zdigits2 (shr_m (SpecFloat.iter_pos shr_1 p mrs))
       = Z.max 0 (Zdigits2 (shr_m mrs) - Zpos p).
Proof.
  induction p as [p IH | p IH |]; intros mrs H; cbn [SpecFloat.iter_pos].
  - destruct (shr_1_digits mrs H) as [H1 E1].
    destruct (IH _ H1) as [H2 E2]. destruct (IH _ H2) as [H3 E3].
    split; [assumption|]. rewrite E3, E2, E1. lia.
  - destruct (IH _ H) as [H2 E2]. destruct (IH _ H2) as [H3 E3].
    split; [assumption|]. rewrite E3, E2. lia.
  - destruct (shr_1_digits mrs H) as [H1 E1]. split; [assumption|].
    rewrite E1. lia.
Qed.

Lemma shr_fexp_digits (m e : Z) (l : location) (mrs : shr_record) (e' : Z) :
  0 <= m ->
  shr_fexp 53 1024 m e l = (mrs, e') ->
  0 <= shr_m mrs
  /\ Zdigits2 (shr_m mrs)
     = Z.max 0 (Zdigits2 m - Z.max 0 (Z.max (Zdigits2 m + e - 53) (-1074) - e))
  /\ e' = e + Z.max 0 (Z.max (Zdigits2 m + e - 53) (-1074) - e).
Proof.
  intros Hm. unfold shr_fexp, shr, fexp, emin.
  change (3 - 1024 - 53) with (-1074).
  assert (shr_m (shr_record_of_loc m l) = m) as Hr
    by (destruct l as [|[]]; reflexivity).
  pose proof (Zdigits2_nonneg m) as Hd.
  destruct (Z.max (Zdigits2 m + e - 53) (-1074) - e) as [|p|p] eqn:En;
    intros [= <- <-].
  - rewrite Hr. lia.
  - destruct (iter_shr_1_digits p (shr_record_of_loc m l)) as [H1 E1];
      [rewrite Hr; exact Hm|].
    rewrite Hr in E1. split; [exact H1|]. rewrite E1. lia.
  - rewrite Hr. lia.
Qed.

Lemma round_nearest_even_bounds (mx : Z) (lx : location) :
  mx <= round_nearest_even mx lx <= mx + 1.
Proof.
  unfold round_nearest_even. destruct lx as [|[]]; try lia.
  destruct (Z.even mx); lia.
Qed.

Lemma Zdigits2_round (mx : Z) (lx : location) :
  0 <= mx ->
  Zdigits2 mx <= Zdigits2 (round_nearest_even mx lx) <= Zdigits2 mx + 1.
Proof.
  intros Hm. pose proof (round_nearest_even_bounds mx lx) as Hr.
  pose proof (Zdigits2_nonneg mx) as Hd.
  destruct (Z.eq_dec mx 0) as [->|Hn].
  - simpl in *. split; [apply Zdigits2_nonneg|].
    apply Zdigits2_upper; [lia|]. simpl. lia.
  - destruct (Zdigits2_bounds mx ltac:(lia)) as (Hp & Hl & Hu). split.
    + replace (Zdigits2 mx) with (Zdigits2 mx - 1 + 1) by lia.
      apply Zdigits2_lower; lia.
    + apply Zdigits2_upper; [lia|].
      rewrite Z.pow_add_r by lia. simpl (2 ^ 1). lia.
Qed.

Lemma SFdiv_core_binary_quotient (a b : Z) :
  0 < a -> 0 < b ->
  let e := Z.min (Z.max (Zdigits2 a - Zdigits2 b - 53) (-1074)) 0 in
  exists l : location,
    SFdiv_core_binary 53 1024 a 0 b 0 = (a * 2 ^ (- e) / b, e, l).
Proof.
  intros Ha Hb e. unfold SFdiv_core_binary, fexp, emin.
  change (3 - 1024 - 53) with (-1074).
  rewrite !Z.add_0_r. change (0 - 0) with 0.
  fold e.
  assert (e <= 0) as He by (unfold e; lia).
  assert (match 0 - e with
          | 0 => a
          | Z.pos _ => Z.shiftl a (0 - e)
          | Z.neg _ => 0
          end = a * 2 ^ (- e)) as ->.
  { destruct (0 - e) as [|p|p] eqn:Es; [| |lia].
    - replace (- e) with 0 by lia. simpl. lia.
    - rewrite Z.shiftl_mul_pow2 by lia. f_equal. f_equal. lia. }
  unfold Z.div.
  destruct (Z.div_eucl (a * 2 ^ (- e)) b) as [q r]. simpl. eauto.
Qed.

Lemma quotient_digits (a b s : Z) :
  0 < a -> 0 < b -> 0 <= s ->
  0 <= a * 2 ^ s / b
  /\ Zdigits2 (a * 2 ^ s / b) <= Z.max 0 (Zdigits2 a - Zdigits2 b + s + 1)
  /\ (1 <= Zdigits2 a - Zdigits2 b + s ->
      Zdigits2 a - Zdigits2 b + s <= Zdigits2 (a * 2 ^ s / b)).
Proof.
  intros Ha Hb Hs.
  destruct (Zdigits2_bounds a Ha) as (Hda & Hla & Hua).
  destruct (Zdigits2_bounds b Hb) as (Hdb & Hlb & Hub).
  assert (0 < 2 ^ s) as Hps by (apply Z.pow_pos_nonneg; lia).
  assert (0 <= a * 2 ^ s / b) as Hq by (apply Z.div_pos; nia).
  split; [exact Hq|]. split.
  - destruct (Z_le_gt_dec 0 (Zdigits2 a - Zdigits2 b + s + 1)) as [Hge|Hlt].
    + rewrite Z.max_r by lia.
      apply Zdigits2_upper; [lia|]. split; [exact Hq|].
      apply Z.div_lt_upper_bound; [lia|].
      assert (a * 2 ^ s < 2 ^ (Zdigits2 a + s)) as H1.
      { rewrite Z.pow_add_r by lia. nia. }
      assert (2 ^ (Zdigits2 a + s)
              = 2 ^ (Zdigits2 b - 1) * 2 ^ (Zdigits2 a - Zdigits2 b + s + 1))
        as H2.
      { rewrite <- Z.pow_add_r by lia. f_equal. lia. }
      assert (0 < 2 ^ (Zdigits2 a - Zdigits2 b + s + 1)) as H3
        by (apply Z.pow_pos_nonneg; lia).
      assert (2 ^ (Zdigits2 b - 1) * 2 ^ (Zdigits2 a - Zdigits2 b + s + 1)
              <= b * 2 ^ (Zdigits2 a - Zdigits2 b + s + 1)) as H4
        by (apply Z.mul_le_mono_nonneg_r; lia).
      lia.
    + replace (a * 2 ^ s / b) with 0; [simpl; lia|].
      symmetry. apply Z.div_small. split; [nia|].
      assert (a * 2 ^ s < 2 ^ (Zdigits2 a + s)) as H1.
      { rewrite Z.pow_add_r by lia. nia. }
      assert (2 ^ (Zdigits2 a + s) <= 2 ^ (Zdigits2 b - 1))
        by (apply Z.pow_le_mono_r; lia).
      lia.
  - intros Hge.
    replace (Zdigits2 a - Zdigits2 b + s)
      with (Zdigits2 a - Zdigits2 b + s - 1 + 1) at 1 by lia.
    apply Zdigits2_lower; [lia|].
    apply Z.div_le_lower_bound; [lia|].
    assert (2 ^ (Zdigits2 a - 1 + s) <= a * 2 ^ s) as H1.
    { rewrite Z.pow_add_r by lia. nia. }
    assert (2 ^ (Zdigits2 a - 1 + s)
            = 2 ^ Zdigits2 b * 2 ^ (Zdigits2 a - Zdigits2 b + s - 1)) as H2.
    { rewrite <- Z.pow_add_r by lia. f_equal. lia. }
    assert (0 < 2 ^ (Zdigits2 a - Zdigits2 b + s - 1)) as H3
      by (apply Z.pow_pos_nonneg; lia).
    assert (b * 2 ^ (Zdigits2 a - Zdigits2 b + s - 1)
            <= 2 ^ Zdigits2 b * 2 ^ (Zdigits2 a - Zdigits2 b + s - 1)) as H4
      by (apply Z.mul_le_mono_nonneg_r; lia).
    lia.
Qed.

(** The correctly rounded quotient of two positive whole numbers whose
    lengths in bits differ by at most 1000 is a finite number other than
    zero. *)
Lemma div_round_finite (sx : bool) (a b : Z) :
  0 < a -> 0 < b ->
  forall (q e : Z) (l : location),
    SFdiv_core_binary 53 1024 a 0 b 0 = (q, e, l) ->
    (Zdigits2 a - Zdigits2 b <= 1000 ->
     (exists s, binary_round_aux 53 1024 sx q e l = S754_zero s)
     \/ (exists m e', binary_round_aux 53 1024 sx q e l = S754_finite sx m e'))
    /\ (-1000 <= Zdigits2 a - Zdigits2 b <= 1000 ->
        exists m e', binary_round_aux 53 1024 sx q e l = S754_finite sx m e').
Proof.
  intros Ha Hb q e l Hc.
  destruct (SFdiv_core_binary_quotient a b Ha Hb) as (l' & Hc').
  rewrite Hc' in Hc. injection Hc as <- <- <-.
  set (D := Zdigits2 a - Zdigits2 b).
  set (e := Z.min (Z.max (D - 53) (-1074)) 0).
  destruct (quotient_digits a b (- e) Ha Hb ltac:(unfold e; lia))
    as (Hq & Hqu & Hql).
  fold D in Hqu, Hql.
  set (q := a * 2 ^ (- e) / b) in *.
  unfold binary_round_aux.
  destruct (shr_fexp 53 1024 q e l') as [mrs1 e1] eqn:E1.
  destruct (shr_fexp_digits q e l' mrs1 e1 Hq E1) as (H1 & D1 & Ee1).
  pose proof (round_nearest_even_bounds (shr_m mrs1) (loc_of_shr_record mrs1))
    as Hr.
  pose proof (Zdigits2_round (shr_m mrs1) (loc_of_shr_record mrs1) H1) as Hdr.
  set (m1 := round_nearest_even (shr_m mrs1) (loc_of_shr_record mrs1)) in *.
  destruct (shr_fexp 53 1024 m1 e1 loc_Exact) as [mrs2 e2] eqn:E2.
  destruct (shr_fexp_digits m1 e1 loc_Exact mrs2 e2 ltac:(lia) E2)
    as (H2 & D2 & Ee2).
  pose proof (Zdigits2_nonneg q) as Hdq.
  assert (Zdigits2 a - Zdigits2 b <= 1000 ->
          (exists s, match shr_m mrs2 with
                     | 0 => S754_zero sx
                     | Z.pos m =>
                         if e2 <=? 1024 - 53 then S754_finite sx m e2
                         else S754_infinity sx
                     | Z.neg _ => S754_nan
                     end = S754_zero s)
          \/ (exists m e',
                 match shr_m mrs2 with
                 | 0 => S754_zero sx
                 | Z.pos m =>
                     if e2 <=? 1024 - 53 then S754_finite sx m e2
                     else S754_infinity sx
                 | Z.neg _ => S754_nan
                 end = S754_finite sx m e')) as Hup.
  { intros HD. fold D in HD.
    destruct (shr_m mrs2) as [|m|m] eqn:Em; [eauto | | lia].
    right. assert (e2 <= 1024 - 53) as Hle by (unfold e in *; lia).
    apply Z.leb_le in Hle. rewrite Hle. eauto. }
  split; [exact Hup|].
  intros [HD1 HD2]. fold D in HD1, HD2.
  destruct (Hup HD2) as [(s & Hz) | Hf]; [|exact Hf]. exfalso.
  assert (0 < Zdigits2 (shr_m mrs2)) as Hpos.
  { specialize (Hql ltac:(unfold e; lia)). unfold e in *. lia. }
  destruct (shr_m mrs2) as [|m|m]; [simpl in Hpos; lia | | lia].
  destruct (e2 <=? 1024 - 53); discriminate.
Qed.

Lemma Zdigits2_le (x y : Z) : 0 <= x <= y -> Zdigits2 x <= Zdigits2 y.
Proof.
  intros [Hx Hy]. destruct (Z.eq_dec y 0) as [->|Hn].
  - replace x with 0 by lia. lia.
  - destruct (Zdigits2_bounds y ltac:(lia)) as (Hd & _ & Hu).
    apply Zdigits2_upper; lia.
Qed.

Lemma int_truediv_no_overflow (a b : Z) :
  b <> 0 ->
  Zdigits2 (Z.abs a) - Zdigits2 (Z.abs b) <= 1000 ->
  exists x, PyFloat.int_truediv a b = inr x.
Proof.
  intros Hb HD. unfold PyFloat.int_truediv.
  apply Z.eqb_neq in Hb as Hb'. rewrite Hb'.
  destruct (a =? 0) eqn:Ea; [eauto|]. apply Z.eqb_neq in Ea.
  destruct (SFdiv_core_binary PyFloat.prec PyFloat.emax (Z.abs a) 0 (Z.abs b) 0)
    as [[q e] l] eqn:Ec.
  destruct (div_round_finite (xorb (a <? 0) (b <? 0)) (Z.abs a) (Z.abs b)
              ltac:(lia) ltac:(lia) q e l Ec) as [H _].
  unfold PyFloat.prec, PyFloat.emax.
  destruct (H HD) as [(s & ->) | (m & e' & ->)]; simpl; eauto.
Qed.

Lemma int_truediv_finite (a b : Z) :
  0 < a -> 0 < b ->
  -1000 <= Zdigits2 a - Zdigits2 b <= 1000 ->
  exists m e, PyFloat.int_truediv a b = inr (S754_finite false m e).
Proof.
  intros Ha Hb HD. unfold PyFloat.int_truediv.
  replace (b =? 0) with false by (symmetry; apply Z.eqb_neq; lia).
  replace (a =? 0) with false by (symmetry; apply Z.eqb_neq; lia).
  replace (a <? 0) with false by (symmetry; apply Z.ltb_ge; lia).
  replace (b <? 0) with false by (symmetry; apply Z.ltb_ge; lia).
  rewrite !Z.abs_eq by lia.
  destruct (SFdiv_core_binary PyFloat.prec PyFloat.emax a 0 b 0)
    as [[q e] l] eqn:Ec.
  destruct (div_round_finite (xorb false false) a b Ha Hb q e l Ec) as [_ H].
  unfold PyFloat.prec, PyFloat.emax.
  destruct (H HD) as (m & e' & ->). simpl. eauto.
Qed.

Lemma hop_price_in_range (pool : Pool) (vector : UniswapPoolSwapVector)
    (pool_state : PoolState) :
  in_range pool pool_state ->
  (exists m e, hop_price pool vector pool_state = Ok (S754_finite false m e))
  \/ (exists msg,
        hop_price pool vector pool_state
        = Raise (ZeroLiquidityError (address pool) msg)).
Proof.
  destruct pool as [p|p], pool_state as [s|s]; simpl; try tauto.
  - intros (H0 & H1 & _). unfold hop_price.
    destruct (reserves_token0 s =? 0) eqn:E0; [simpl; eauto|].
    destruct (reserves_token1 s =? 0) eqn:E1; [simpl; eauto|].
    cbn [orb].
    repeat match goal with
      | |- context [if ?c then _ else _] => destruct c; [eauto|]
      end.
    apply Z.eqb_neq in E0, E1. left.
    pose proof (Zdigits2_upper (reserves_token0 s) 112 ltac:(lia) H0).
    pose proof (Zdigits2_upper (reserves_token1 s) 112 ltac:(lia) H1).
    destruct (Zdigits2_bounds (reserves_token0 s) ltac:(lia)) as [? _].
    destruct (Zdigits2_bounds (reserves_token1 s) ltac:(lia)) as [? _].
    destruct (int_truediv_finite (reserves_token1 s) (reserves_token0 s))
      as (m & e & ->); [lia..|]. simpl. eauto.
  - intros (Hs & _). unfold hop_price.
    destruct (sqrt_price_x96 s =? 0) eqn:E0; [simpl; eauto|].
    repeat match goal with
      | |- context [if ?c then _ else _] => destruct c; [eauto|]
      end.
    apply Z.eqb_neq in E0. left.
    assert (0 < sqrt_price_x96 s ^ 2 < 2 ^ 320) as Hq.
    { change (2 ^ 320) with (2 ^ 160 * 2 ^ 160). nia. }
    pose proof (Zdigits2_upper (sqrt_price_x96 s ^ 2) 320 ltac:(lia)
                  ltac:(lia)).
    destruct (Zdigits2_bounds (sqrt_price_x96 s ^ 2) ltac:(lia)) as [? _].
    destruct (int_truediv_finite (sqrt_price_x96 s ^ 2) (2 ^ 192))
      as (m & e & ->); [lia | lia | |].
    + change (Zdigits2 (2 ^ 192)) with 193. lia.
    + simpl. eauto.
Qed.

Lemma fee_multiplier_in_range (fee : Fraction) :
  0 < denominator fee ->
  Z.abs (denominator fee - numerator fee) < 2 ^ 1000 ->
  exists x,
    PyFloat.int_truediv (denominator fee - numerator fee) (denominator fee)
    = inr x.
Proof.
  intros Hd Ha. apply int_truediv_no_overflow; [lia|].
  pose proof (Zdigits2_upper (Z.abs (denominator fee - numerator fee)) 1000
                ltac:(lia) ltac:(lia)).
  destruct (Zdigits2_bounds (Z.abs (denominator fee)) ltac:(lia)) as [? _].
  lia.
Qed.

Lemma mkFraction_denominator_pos (n d : Z) :
  0 < d -> 0 < denominator (mkFraction n d).
Proof.
  intros Hd. unfold mkFraction. simpl.
  pose proof (Z.gcd_nonneg n d) as Hg.
  pose proof (Z.gcd_divide_r n d) as Hdiv.
  assert (Z.gcd n d <> 0) as Hnz.
  { intros H0. apply Z.gcd_eq_0_r in H0. lia. }
  apply Z.div_str_pos. split; [lia|].
  apply Z.divide_pos_le; assumption.
Qed.

Lemma hop_fee_in_range (pool : Pool) (vector : UniswapPoolSwapVector)
    (pool_state : PoolState) :
  in_range pool pool_state ->
  exists x,
    PyFloat.int_truediv
      (denominator (hop_fee pool vector) - numerator (hop_fee pool vector))
      (denominator (hop_fee pool vector))
    = inr x.
Proof.
  destruct pool as [p|p], pool_state as [s|s]; cbn [in_range hop_fee];
    try tauto.
  - intros (_ & _ & [Hd0 Hn0] & [Hd1 Hn1]).
    destruct (zero_for_one vector); apply int_truediv_no_overflow; try lia.
    + pose proof (Zdigits2_le (Z.abs (denominator (fee_token0 p)
                                     - numerator (fee_token0 p)))
                    (Z.abs (denominator (fee_token0 p))) ltac:(lia)).
      lia.
    + pose proof (Zdigits2_le (Z.abs (denominator (fee_token1 p)
                                     - numerator (fee_token1 p)))
                    (Z.abs (denominator (fee_token1 p))) ltac:(lia)).
      lia.
  - intros (_ & Hf).
    apply fee_multiplier_in_range.
    + apply mkFraction_denominator_pos. lia.
    + unfold mkFraction. simpl.
      pose proof (Z.gcd_nonneg (_fee p) 1000000) as Hg.
      assert (Z.gcd (_fee p) 1000000 <> 0) as Hnz.
      { intros H0. apply Z.gcd_eq_0_r in H0. lia. }
      assert (0 <= _fee p / Z.gcd (_fee p) 1000000 <= _fee p).
      { split; [apply Z.div_pos; lia|].
        apply Z.div_le_upper_bound; [lia|]. nia. }
      assert (0 <= 1000000 / Z.gcd (_fee p) 1000000 <= 1000000).
      { split; [apply Z.div_pos; lia|].
        apply Z.div_le_upper_bound; [lia|]. nia. }
      assert (2 ^ 33 <= 2 ^ 1000) by (apply Z.pow_le_mono_r; lia).
      change (2 ^ 33) with 8589934592 in *.
      change (2 ^ 32) with 4294967296 in *.
      lia.
Qed.

Lemma hop_step_in_range (so : gmap N PoolState) (pool : Pool)
    (vector : UniswapPoolSwapVector) :
  in_range pool (effective_state so pool) ->
  state_of_kind pool (effective_state so pool) = true
  /\ is_arithmetic_error (hop_step so pool vector) = false.
Proof.
  intros H. split.
  - destruct pool, (effective_state so _); simpl in *; tauto.
  - unfold hop_step.
    destruct (hop_price_in_range pool vector _ H)
      as [(m & e & ->) | (msg & ->)]; [|reflexivity].
    simpl. unfold hop_factor.
    destruct (hop_fee_in_range pool vector _ H) as (x & ->).
    destruct (zero_for_one vector); reflexivity.
Qed.

Lemma hops_in_range (so : gmap N PoolState) (pools : list Pool)
    (vectors : list UniswapPoolSwapVector) :
  Forall (fun pool => in_range pool (effective_state so pool)) pools ->
  Forall (fun hop =>
            state_of_kind hop.1 (effective_state so hop.1) = true
            /\ is_arithmetic_error (hop_step so hop.1 hop.2) = false)
    (zip pools vectors).
Proof.
  intros H. revert vectors.
  induction H as [|pool rest Hp _ IH]; intros [|vector vectors]; simpl;
    constructor.
  - apply hop_step_in_range. exact Hp.
  - apply IH.
Qed.

(** C6: in a cycle whose earlier hops pass, the check fails with
    [ZeroLiquidityError] at a V3 hop whose state has a zero square-root
    price, an empty tick bitmap, or no liquidity at the boundary price of
    the direction of the hop; and, for states of the pools' kinds with
    their numbers in the ranges of their types, the check passes, reports
    no profit, or fails with [ZeroLiquidityError]. *)
Theorem pre_check_zero_liquidity (self : UniswapLpCycle)
    (override_state : option (list (Pool * Override))) :
  (forall (before after : list (Pool * UniswapPoolSwapVector))
          (p : V3LiquidityPool) (vector : UniswapPoolSwapVector)
          (s : UniswapV3PoolState) (pf : spec_float),
      zip (swap_pools self) (_swap_vectors self)
      = before ++ (V3 p, vector) :: after ->
      pre_calculation_loop (_sort_overrides override_state)
        PyFloat.f_1_0 before = Ok pf ->
      effective_state (_sort_overrides override_state) (V3 p) = V3State s ->
      v3_without_liquidity s (zero_for_one vector) ->
      exists msg,
        _pre_calculation_check self override_state
        = Raise (ZeroLiquidityError (v3_address p) msg))
  /\ (Forall (fun pool =>
                in_range pool
                  (effective_state (_sort_overrides override_state) pool))
        (swap_pools self) ->
      _pre_calculation_check self override_state = Ok tt
      \/ (exists pf,
            _pre_calculation_check self override_state
            = Raise (ArbitrageError (No_profitable_arbitrage pf)))
      \/ (exists a msg,
            _pre_calculation_check self override_state
            = Raise (ZeroLiquidityError a msg))).
Proof.
  split.
  - intros before after p vector s pf Hz Hb Hs Hw.
    destruct (v3_hop_price_raises p vector s Hw) as (msg & Hp).
    exists msg. eapply pre_calculation_check_raises; [eassumption..|].
    rewrite Hs. exact Hp.
  - intros HF. unfold _pre_calculation_check.
    destruct (pre_calculation_loop_outcome
                (_sort_overrides override_state)
                (zip (swap_pools self) (_swap_vectors self))
                (hops_in_range _ _ _ HF) PyFloat.f_1_0)
      as [(pf & ->) | (a & msg & ->)]; simpl.
    + destruct (PyFloat.ltb pf PyFloat.f_1_0); eauto.
    + eauto.
Qed.

(** *** The profit factor *)

Lemma nearest_float_div (a b : Z) :
  b <> 0 -> a <> 0 \/ 0 < b ->
  nearest_float (inject_Z a / inject_Z b) = arith (PyFloat.int_truediv a b).
Proof.
  intros Hb Ha. unfold nearest_float, Qdiv, Qinv, inject_Z.
  destruct b as [|p|p]; [contradiction | |]; cbn [Qnum Qden Qmult].
  - rewrite Z.mul_1_r. reflexivity.
  - destruct Ha as [Ha | Ha]; [|lia].
    replace (a * Z.neg 1) with (- a) by lia.
    unfold PyFloat.int_truediv.
    replace (- a =? 0) with (a =? 0) by (destruct a; reflexivity).
    rewrite Z.abs_opp.
    replace (xorb (- a <? 0) (Z.pos (1 * p) <? 0))
      with (xorb (a <? 0) (Z.neg p <? 0))
      by (destruct a; [contradiction|..]; reflexivity).
    apply Z.eqb_neq in Ha. rewrite Ha. reflexivity.
Qed.

Lemma nearest_float_v3_price (s : UniswapV3PoolState) :
  nearest_float (spot_price (V3State s))
  = arith (PyFloat.int_truediv (sqrt_price_x96 s ^ 2) (2 ^ 192)).
Proof.
  unfold nearest_float, spot_price.
  change (2 ^ 96) with (Z.pos (2 ^ 96)).
  unfold Qdiv, Qinv, inject_Z, Qpower, Qpower_positive, pow_pos.
  cbn [Qnum Qden Qmult Pos.iter_op].
  replace (sqrt_price_x96 s * 1 * (sqrt_price_x96 s * 1))
    with (sqrt_price_x96 s ^ 2) by lia.
  replace (Z.pos (1 * 2 ^ 96 * (1 * 2 ^ 96))) with (2 ^ 192)
    by (vm_compute; reflexivity).
  reflexivity.
Qed.

Lemma hop_price_spot_price (pool : Pool) (vector : UniswapPoolSwapVector)
    (pool_state : PoolState) :
  passes_liquidity_check pool vector pool_state ->
  hop_price pool vector pool_state = nearest_float (spot_price pool_state).
Proof.
  unfold passes_liquidity_check.
  destruct pool as [p|p], pool_state as [s|s]; try (simpl; tauto).
  - unfold hop_price.
    destruct (reserves_token0 s =? 0) eqn:E0; [simpl; tauto|].
    destruct (reserves_token1 s =? 0) eqn:E1; [simpl; tauto|]. simpl.
    repeat match goal with
      | |- context [if ?c then _ else _] => destruct c; [simpl; tauto|]
      end.
    intros _. apply Z.eqb_neq in E0, E1.
    unfold spot_price. symmetry. apply nearest_float_div; auto.
  - unfold hop_price.
    repeat match goal with
      | |- context [if ?c then _ else _] => destruct c; [simpl; tauto|]
      end.
    intros _. symmetry. apply nearest_float_v3_price.
Qed.

Lemma nearest_float_fee_multiplier (fee : Fraction) :
  0 < denominator fee ->
  nearest_float (fee_multiplier fee)
  = arith (PyFloat.int_truediv
             (denominator fee - numerator fee) (denominator fee)).
Proof.
  intros H. unfold fee_multiplier. apply nearest_float_div; lia.
Qed.

Lemma hop_fee_denominator_pos (pool : Pool) (vector : UniswapPoolSwapVector) :
  fees_are_fractions pool -> 0 < denominator (hop_fee pool vector).
Proof.
  destruct pool as [p|p]; simpl.
  - intros [H0 H1]. destruct (zero_for_one vector); assumption.
  - intros _. apply mkFraction_denominator_pos. lia.
Qed.

Lemma hop_step_profit_factor (so : gmap N PoolState)
    (hop : Pool * UniswapPoolSwapVector) :
  passes_liquidity_check hop.1 hop.2 (effective_state so hop.1) ->
  fees_are_fractions hop.1 ->
  hop_step so hop.1 hop.2 = hop_profit_factor so hop.
Proof.
  intros Hp Hf. unfold hop_step, hop_profit_factor, hop_factor.
  rewrite (hop_price_spot_price _ _ _ Hp).
  rewrite (nearest_float_fee_multiplier _
             (hop_fee_denominator_pos _ hop.2 Hf)).
  reflexivity.
Qed.

Lemma profit_factor_Raise (so : gmap N PoolState)
    (hops : list (Pool * UniswapPoolSwapVector)) (e : exn) :
  foldl (fun product hop =>
           p ← product;
           f ← hop_profit_factor so hop;
           Ok (PyFloat.mul p f))
        (Raise e) hops = Raise e.
Proof. induction hops as [|hop rest IH]; simpl; auto. Qed.

Lemma pre_calculation_loop_profit_factor (so : gmap N PoolState)
    (hops : list (Pool * UniswapPoolSwapVector)) :
  Forall (fun hop =>
            passes_liquidity_check hop.1 hop.2 (effective_state so hop.1)
            /\ fees_are_fractions hop.1) hops ->
  forall pf : spec_float,
    pre_calculation_loop so pf hops
    = foldl (fun product hop =>
               p ← product;
               f ← hop_profit_factor so hop;
               Ok (PyFloat.mul p f))
            (Ok pf) hops.
Proof.
  induction 1 as [|[pool vector] rest [Hp Hf] _ IH]; intros pf; simpl.
  - reflexivity.
  - pose proof (hop_step_profit_factor so (pool, vector) Hp Hf) as Hs.
    simpl in Hs. rewrite Hs.
    destruct (hop_profit_factor so (pool, vector)) as [f|e]; simpl.
    + apply IH.
    + symmetry. apply profit_factor_Raise.
Qed.

(** C1: for every cycle and overrides whose hops pass the liquidity
    checks, the fees of the V2 pools being fractions, the check computes
    the profit factor as the product over the hops of the directional
    spot price and the fee multiplier, and it fails with the no-profit
    [ArbitrageError] exactly when that factor is below [1.0]; otherwise it
    passes. *)
Theorem pre_check_profit_factor (self : UniswapLpCycle)
    (override_state : option (list (Pool * Override))) :
  let so := _sort_overrides override_state in
  let hops := zip (swap_pools self) (_swap_vectors self) in
  Forall (fun hop =>
            passes_liquidity_check hop.1 hop.2 (effective_state so hop.1)
            /\ fees_are_fractions hop.1) hops ->
  _pre_calculation_check self override_state
  = (pf ← profit_factor so hops;
     if PyFloat.ltb pf PyFloat.f_1_0
     then Raise (ArbitrageError (No_profitable_arbitrage pf))
     else Ok tt)
  /\ forall pf,
       profit_factor so hops = Ok pf ->
       (_pre_calculation_check self override_state
        = Raise (ArbitrageError (No_profitable_arbitrage pf))
        <-> PyFloat.ltb pf PyFloat.f_1_0 = true)
       /\ (_pre_calculation_check self override_state = Ok tt
           <-> PyFloat.ltb pf PyFloat.f_1_0 = false).
Proof.
  intros so hops HF.
  assert (_pre_calculation_check self override_state
          = (pf ← profit_factor so hops;
             if PyFloat.ltb pf PyFloat.f_1_0
             then Raise (ArbitrageError (No_profitable_arbitrage pf))
             else Ok tt)) as Heq.
  { unfold _pre_calculation_check, profit_factor. fold so. fold hops.
    rewrite (pre_calculation_loop_profit_factor so hops HF). reflexivity. }
  split; [exact Heq|].
  intros pf Hpf. rewrite Heq, Hpf. simpl.
  destruct (PyFloat.ltb pf PyFloat.f_1_0); split; split;
    intros H; try reflexivity; discriminate.
Qed.

Lemma v2_hop_last_unit_unreachable_witness :
  _pre_calculation_check Examples.weth_cycle_dust None
  = Raise (ZeroLiquidityError 15 V2_no_liquidity_0_to_1).
Proof.
  refine (proj1 (v2_hop_last_unit_unreachable Examples.weth_cycle_dust None
                   [(Examples.weth_usdc,
                     {| token_in := Examples.WETH; token_out := Examples.USDC;
                        zero_for_one := true |})]
                   []
                   {| v2_address := 15; v2_token0 := Examples.USDC;
                      v2_token1 := Examples.WETH;
                      fee_token0 := Examples.fee_3_1000;
                      fee_token1 := Examples.fee_3_1000;
                      v2_state := {| reserves_token0 := 1000000;
                                      reserves_token1 := 1 |} |}
                   {| token_in := Examples.USDC; token_out := Examples.WETH;
                      zero_for_one := true |}
                   {| reserves_token0 := 1000000; reserves_token1 := 1 |}
                   (S754_finite false 8769704743141376 (-43))
                   _ _ _ _ _) _).
  - reflexivity.
  - vm_compute. reflexivity.
  - reflexivity.
  - simpl. lia.
  - simpl. lia.
  - reflexivity.
Defined.

Lemma pre_check_zero_liquidity_witness :
  (exists msg,
     _pre_calculation_check Examples.weth_cycle_v3_empty None
     = Raise (ZeroLiquidityError 14 msg))
  /\ (_pre_calculation_check Examples.weth_cycle_v3 None = Ok tt
      \/ (exists pf,
            _pre_calculation_check Examples.weth_cycle_v3 None
            = Raise (ArbitrageError (No_profitable_arbitrage pf)))
      \/ (exists a msg,
            _pre_calculation_check Examples.weth_cycle_v3 None
            = Raise (ZeroLiquidityError a msg))).
Proof.
  split.
  - refine (proj1 (pre_check_zero_liquidity Examples.weth_cycle_v3_empty None)
              [(Examples.weth_usdc,
                {| token_in := Examples.WETH; token_out := Examples.USDC;
                   zero_for_one := true |})]
              []
              {| v3_address := 14; v3_token0 := Examples.USDC;
                 v3_token1 := Examples.WETH; _fee := 3000;
                 _sparse_bitmap := false;
                 v3_state := Examples.v3_state_at 0 0 ∅ |}
              {| token_in := Examples.USDC; token_out := Examples.WETH;
                 zero_for_one := true |}
              (Examples.v3_state_at 0 0 ∅)
              (S754_finite false 8769704743141376 (-43))
              _ _ _ _).
    + reflexivity.
    + vm_compute. reflexivity.
    + reflexivity.
    + left. reflexivity.
  - apply (proj2 (pre_check_zero_liquidity Examples.weth_cycle_v3 None)).
    change (swap_pools Examples.weth_cycle_v3)
      with [Examples.weth_usdc; Examples.usdc_weth_v3].
    apply Forall_cons_2; [|apply Forall_cons_2; [|apply Forall_nil_2]];
      repeat split; vm_compute; reflexivity || discriminate.
Defined.

(** Outside the ranges the check has other outcomes.  The first pool of
    the cycle has the reserves [(2^1100, 2)]: its price [2 / 2^1100] is
    [0.0] as a float, and the hop, from token1 to token0, divides 1 by it.
    A V2 pool overridden with the state of a V3 pool has no reserves to
    read. *)
Lemma pre_check_raises_other_errors :
  _pre_calculation_check Examples.weth_cycle_vast None
  = Raise (ArithmeticError PyFloat.ZeroDivisionError)
  /\ _pre_calculation_check Examples.weth_cycle
       (Some [(Examples.weth_usdc,
               Override_state
                 (V3State (Examples.v3_state_at (2 ^ 96) 1000 {[ 0 := 1 ]})))])
     = Raise AttributeError.
Proof. split; vm_compute; reflexivity. Qed.

Lemma pre_check_profit_factor_witness :
  _pre_calculation_check Examples.weth_cycle_back None = Ok tt
  /\ profit_factor ∅
       (zip (swap_pools Examples.weth_cycle_back)
            (_swap_vectors Examples.weth_cycle_back))
     = Ok (S754_finite false 4521384747622949 (-52)).
Proof.
  assert (Forall (fun hop =>
                    passes_liquidity_check hop.1 hop.2 (effective_state ∅ hop.1)
                    /\ fees_are_fractions hop.1)
            (zip (swap_pools Examples.weth_cycle_back)
                 (_swap_vectors Examples.weth_cycle_back))) as HF.
  { repeat constructor; vm_compute; reflexivity || exact I. }
  assert (profit_factor ∅
            (zip (swap_pools Examples.weth_cycle_back)
                 (_swap_vectors Examples.weth_cycle_back))
          = Ok (S754_finite false 4521384747622949 (-52))) as Hpf.
  { vm_compute. reflexivity. }
  split; [|exact Hpf].
  apply (proj2 (pre_check_profit_factor Examples.weth_cycle_back None HF) _ Hpf).
  reflexivity.
Defined.

(** ** The objective, the swap amounts and the calculation *)

Section CalculationProperties.

Variable calculate_tokens_out_from_tokens_in :
  Pool -> Erc20Token -> Z -> option PoolState -> result Z.

Variable minimize_scalar :
  (spec_float -> result spec_float) -> minimize_args -> result OptimizeResult.

Lemma arb_profit_loop_calls_raise (so : gmap N PoolState) (tin : Z)
    (i : nat) (out : Z) (hops : list (Pool * UniswapPoolSwapVector)) (e : exn) :
  calls_raise calculate_tokens_out_from_tokens_in so tin i out hops e ->
  is_revert_or_pool_error e = true ->
  arb_profit_loop calculate_tokens_out_from_tokens_in so tin i out hops = Ok 0.
Proof.
  intros H He.
  induction H as [i out [pool vector] rest e H | i out [pool vector] rest o e H _ IH];
    unfold hop_call, hop_input in H; simpl in H; simpl; rewrite H.
  - rewrite He. reflexivity.
  - apply IH, He.
Qed.

Lemma arb_profit_loop_Raise (so : gmap N PoolState) (tin : Z)
    (hops : list (Pool * UniswapPoolSwapVector)) :
  forall (i : nat) (out : Z) (e : exn),
    arb_profit_loop calculate_tokens_out_from_tokens_in so tin i out hops = Raise e ->
    is_revert_or_pool_error e = false.
Proof.
  induction hops as [|[pool vector] rest IH]; intros i out e; simpl.
  - discriminate.
  - destruct (calculate_tokens_out_from_tokens_in pool (token_in vector) _ _) as [o|e'].
    + apply IH.
    + destruct (is_revert_or_pool_error e') eqn:E; [discriminate|].
      intros [= <-]. exact E.
Qed.

Lemma arb_profit_loop_calls_raise_other (so : gmap N PoolState) (tin : Z)
    (i : nat) (out : Z) (hops : list (Pool * UniswapPoolSwapVector))
    (e : exn) :
  calls_raise calculate_tokens_out_from_tokens_in so tin i out hops e ->
  is_revert_or_pool_error e = false ->
  arb_profit_loop calculate_tokens_out_from_tokens_in so tin i out hops
  = Raise e.
Proof.
  intros H He.
  induction H as [i out [pool vector] rest e H
                 | i out [pool vector] rest o e H _ IH];
    unfold hop_call, hop_input in H; simpl in H; simpl; rewrite H.
  - rewrite He. reflexivity.
  - apply IH, He.
Qed.

(** C2: when a pool's swap calculation raises an [EVMRevertError] or a
    [LiquidityPoolError] while the objective is evaluated at [x], the
    objective returns the negated profit of an output of zero,
    [-float(0 - int(x))]; and the objective never raises one of these
    errors, so none leaves the search through it.  An exception of
    another class that a pool raises, a [ZeroLiquidityError] among them,
    is not caught. *)
Theorem arb_profit_swallows_pool_errors (self : UniswapLpCycle)
    (so : gmap N PoolState) (x : spec_float) :
  (forall (tin : Z) (e : exn),
      PyFloat.to_int x = inr tin ->
      calls_raise calculate_tokens_out_from_tokens_in so tin 0 0
        (zip (swap_pools self) (_swap_vectors self)) e ->
      is_revert_or_pool_error e = true ->
      arb_profit calculate_tokens_out_from_tokens_in self so x
      = (profit ← arith (PyFloat.of_int (0 - tin)); Ok (PyFloat.neg profit)))
  /\ (forall e : exn,
        arb_profit calculate_tokens_out_from_tokens_in self so x = Raise e ->
        is_revert_or_pool_error e = false)
  /\ (forall (tin : Z) (e : exn),
        PyFloat.to_int x = inr tin ->
        calls_raise calculate_tokens_out_from_tokens_in so tin 0 0
          (zip (swap_pools self) (_swap_vectors self)) e ->
        is_revert_or_pool_error e = false ->
        arb_profit calculate_tokens_out_from_tokens_in self so x = Raise e).
Proof.
  split; [|split].
  - intros tin e Hx Hc He. unfold arb_profit. rewrite Hx. simpl.
    rewrite (arb_profit_loop_calls_raise _ _ _ _ _ _ Hc He). reflexivity.
  - intros e. unfold arb_profit.
    destruct (PyFloat.to_int x) as [ae|tin]; simpl; [intros [= <-]; reflexivity|].
    destruct (arb_profit_loop calculate_tokens_out_from_tokens_in so tin 0 0 _)
      as [out|e'] eqn:El; simpl.
    + destruct (PyFloat.of_int (out - tin)); simpl;
        [intros [= <-]; reflexivity | discriminate].
    + intros [= <-]. eapply arb_profit_loop_Raise; eassumption.
  - intros tin e Hx Hc He. unfold arb_profit. rewrite Hx. simpl.
    rewrite (arb_profit_loop_calls_raise_other _ _ _ _ _ _ Hc He).
    reflexivity.
Qed.

(** *** The swap amounts *)

Lemma build_amounts_loop_reach_zero (so : gmap N PoolState) (tin : Z)
    (i : nat) (out : Z) (hops : list (Pool * UniswapPoolSwapVector))
    (pool : Pool) :
  calls_reach_zero calculate_tokens_out_from_tokens_in so tin i out hops pool ->
  build_amounts_loop calculate_tokens_out_from_tokens_in so tin i out hops
  = Raise (ArbitrageError (Zero_output_swap (address pool))).
Proof.
  intros H.
  induction H as [i out [p vector] rest H
                 | i out [p vector] rest o pool H Ho _ IH];
    unfold hop_call, hop_input in H; simpl in H; simpl; rewrite H.
  - reflexivity.
  - apply Z.eqb_neq in Ho. rewrite Ho, IH. reflexivity.
Qed.

Lemma build_amounts_loop_Ok (so : gmap N PoolState) (tin : Z)
    (hops : list (Pool * UniswapPoolSwapVector)) :
  forall (i : nat) (out : Z) (records : list PoolSwapAmounts),
    build_amounts_loop calculate_tokens_out_from_tokens_in so tin i out hops
    = Ok records ->
    exists amounts : list (Z * Z),
      calls_return calculate_tokens_out_from_tokens_in so tin i out hops amounts
      /\ Forall (fun io => io.2 <> 0) amounts
      /\ records
         = zip_with
             (fun hop io => hop_amounts hop.1 (zero_for_one hop.2) io.1 io.2)
             hops amounts.
Proof.
  induction hops as [|[pool vector] rest IH]; intros i out records; simpl.
  - intros [= <-]. exists []. repeat split; constructor.
  - destruct (calculate_tokens_out_from_tokens_in pool (token_in vector) _ _)
      as [o|e] eqn:Ec.
    2: { destruct e; discriminate. }
    destruct (o =? 0) eqn:Eo; [discriminate|]. apply Z.eqb_neq in Eo.
    intros H. bind_inv H. injection H as <-.
    destruct (IH _ _ _ Ha) as (amounts & Hc & Hnz & ->).
    exists ((hop_input tin i out, o) :: amounts). repeat split.
    + constructor; [exact Ec | exact Hc].
    + constructor; [exact Eo | exact Hnz].
Qed.

Lemma calls_return_length (so : gmap N PoolState) (tin : Z) (i : nat)
    (out : Z) (hops : list (Pool * UniswapPoolSwapVector))
    (amounts : list (Z * Z)) :
  calls_return calculate_tokens_out_from_tokens_in so tin i out hops amounts ->
  length amounts = length hops.
Proof. induction 1; simpl; congruence. Qed.

(** The amount into the first hop is the quantity given, the amount into
    a later hop is the amount out of the hop before. *)
Lemma calls_return_inputs (so : gmap N PoolState) (tin : Z) (i : nat)
    (out : Z) (hops : list (Pool * UniswapPoolSwapVector))
    (amounts : list (Z * Z)) :
  calls_return calculate_tokens_out_from_tokens_in so tin i out hops amounts ->
  (forall io, amounts !! 0%nat = Some io -> io.1 = hop_input tin i out)
  /\ (forall k io io', amounts !! k = Some io -> amounts !! S k = Some io' ->
                       io'.1 = io.2).
Proof.
  induction 1 as [|i out hop rest o amounts Hc Hr [IH0 IHS]].
  - split; intros; discriminate.
  - split.
    + intros io [= <-]. reflexivity.
    + intros [|k] io io' Hio Hio'.
      * injection Hio as <-. simpl. apply (IH0 io'). exact Hio'.
      * apply (IHS k io io'); assumption.
Qed.

Lemma build_amounts_out_Ok (self : UniswapLpCycle) (token : Erc20Token)
    (tin : Z) (so : gmap N PoolState) (records : list PoolSwapAmounts) :
  _build_amounts_out calculate_tokens_out_from_tokens_in self token tin so
  = Ok records ->
  exists amounts : list (Z * Z),
    calls_return calculate_tokens_out_from_tokens_in so tin 0 0
      (zip (swap_pools self) (_swap_vectors self)) amounts
    /\ Forall (fun io => io.2 <> 0) amounts
    /\ records
       = zip_with (fun hop io => hop_amounts hop.1 (zero_for_one hop.2) io.1 io.2)
           (zip (swap_pools self) (_swap_vectors self)) amounts.
Proof. apply build_amounts_loop_Ok. Qed.

(** C7: when, building the amounts for an input, the swap calculation of
    a hop returns zero (the hops before it returning other amounts), the
    build raises the zero-output [ArbitrageError] for that pool; and when
    the build returns, every hop's calculation returned an amount other
    than zero, so no record of a V2 hop has both amounts zero. *)
Theorem build_amounts_out_zero_output (self : UniswapLpCycle)
    (token : Erc20Token) (tin : Z) (so : gmap N PoolState) :
  (forall pool : Pool,
      calls_reach_zero calculate_tokens_out_from_tokens_in so tin 0 0
        (zip (swap_pools self) (_swap_vectors self)) pool ->
      _build_amounts_out calculate_tokens_out_from_tokens_in self token tin so
      = Raise (ArbitrageError (Zero_output_swap (address pool))))
  /\ (forall records : list PoolSwapAmounts,
        _build_amounts_out calculate_tokens_out_from_tokens_in self token tin so
        = Ok records ->
        exists amounts : list (Z * Z),
          calls_return calculate_tokens_out_from_tokens_in so tin 0 0
            (zip (swap_pools self) (_swap_vectors self)) amounts
          /\ length records = length amounts
          /\ Forall (fun io => io.2 <> 0) amounts
          /\ Forall (fun record =>
                       match record with
                       | UniswapV2PoolSwapAmounts (a0, a1) => a0 <> 0 \/ a1 <> 0
                       | UniswapV3PoolSwapAmounts _ _ _ => True
                       end) records).
Proof.
  split.
  - intros pool H. apply build_amounts_loop_reach_zero. exact H.
  - intros records H.
    destruct (build_amounts_out_Ok _ _ _ _ _ H) as (amounts & Hc & Hnz & ->).
    exists amounts. split; [exact Hc|].
    pose proof (calls_return_length _ _ _ _ _ _ Hc) as Hlen.
    split; [rewrite length_zip_with; lia|]. split; [exact Hnz|].
    clear H Hc. revert amounts Hnz Hlen.
    induction (zip (swap_pools self) (_swap_vectors self))
      as [|[pool vector] rest IH]; intros [|[qin out] amounts] Hnz Hlen;
      simpl; try constructor.
    + apply Forall_cons_1 in Hnz as [Ho _]. simpl in Ho.
      destruct pool as [p|p]; simpl; [|exact I].
      destruct (zero_for_one vector); auto.
    + apply Forall_cons_1 in Hnz as [_ Hnz]. apply IH; [exact Hnz|].
      simpl in Hlen. lia.
Qed.

(** C8: when the build returns for an input, the record of each hop is,
    at a V2 pool, the amounts [(0, amount_out)] for zero-for-one and
    [(amount_out, 0)] otherwise, with [amount_out] other than zero, and, at
    a V3 pool, the amount that goes into the hop, the direction of the hop
    and the price limit [MIN_SQRT_RATIO + 1] for zero-for-one and
    [MAX_SQRT_RATIO - 1] otherwise; the amount into the first hop is the
    input and the amount into a later hop is the amount out of the hop
    before it. *)
Theorem build_amounts_out_records (self : UniswapLpCycle)
    (token : Erc20Token) (tin : Z) (so : gmap N PoolState)
    (records : list PoolSwapAmounts) :
  _build_amounts_out calculate_tokens_out_from_tokens_in self token tin so
  = Ok records ->
  exists amounts : list (Z * Z),
    calls_return calculate_tokens_out_from_tokens_in so tin 0 0
      (zip (swap_pools self) (_swap_vectors self)) amounts
    /\ (forall io, amounts !! 0%nat = Some io -> io.1 = tin)
    /\ (forall k io io', amounts !! k = Some io -> amounts !! S k = Some io' ->
                         io'.1 = io.2)
    /\ forall (k : nat) (pool : Pool) (vector : UniswapPoolSwapVector),
         zip (swap_pools self) (_swap_vectors self) !! k = Some (pool, vector) ->
         exists qin out : Z,
           amounts !! k = Some (qin, out) /\ out <> 0
           /\ records !! k
              = Some match pool with
                     | V2 _ =>
                         UniswapV2PoolSwapAmounts
                           (if zero_for_one vector then (0, out) else (out, 0))
                     | V3 _ =>
                         UniswapV3PoolSwapAmounts qin (zero_for_one vector)
                           (if zero_for_one vector
                            then TickMath.MIN_SQRT_RATIO + 1
                            else TickMath.MAX_SQRT_RATIO - 1)
                     end.
Proof.
  intros H.
  destruct (build_amounts_out_Ok _ _ _ _ _ H) as (amounts & Hc & Hnz & ->).
  exists amounts. split; [exact Hc|].
  destruct (calls_return_inputs _ _ _ _ _ _ Hc) as [H0 HS].
  split; [exact H0|]. split; [exact HS|].
  intros k pool vector Hk.
  pose proof (calls_return_length _ _ _ _ _ _ Hc) as Hlen.
  destruct (amounts !! k) as [[qin out]|] eqn:Ea.
  2: { apply lookup_ge_None in Ea. apply lookup_lt_Some in Hk. lia. }
  exists qin, out. split; [reflexivity|].
  split.
  { rewrite Forall_lookup in Hnz. apply (Hnz k (qin, out) Ea). }
  rewrite lookup_zip_with, Hk. simpl. rewrite Ea. simpl.
  destruct pool; reflexivity.
Qed.

(** *** The calculation *)

Lemma _calculate_after_check (self : UniswapLpCycle)
    (override_state : option (list (Pool * Override))) :
  _pre_calculation_check self override_state = Ok tt ->
  calculate calculate_tokens_out_from_tokens_in minimize_scalar self
    override_state
  = (args ← optimizer_args self;
     opt ← minimize_scalar
             (arb_profit calculate_tokens_out_from_tokens_in self
                (_sort_overrides override_state)) args;
     opt_fun_int ← arith (PyFloat.to_int (opt_fun opt));
     swap_amount ← arith (PyFloat.to_int (opt_x opt));
     match _build_amounts_out calculate_tokens_out_from_tokens_in self
             (input_token self) swap_amount (_sort_overrides override_state)
     with
     | Raise e => Raise (ArbitrageError (No_possible_arbitrage e))
     | Ok best_amounts =>
         Ok {| res_id := id self;
               res_input_token := input_token self;
               profit_token := input_token self;
               input_amount := swap_amount;
               profit_amount := - opt_fun_int;
               swap_amounts := best_amounts |}
     end).
Proof.
  intros Hc. unfold calculate, _calculate. rewrite Hc. reflexivity.
Qed.

(** C3 (as amended): a failed pre-calculation check fails the calculation
    with the error of the check; after a check that passes and an
    optimizer that returns, the calculation reports that no arbitrage is
    possible whenever the build of the swap amounts at the input found
    raises, whatever it raises, and returns a calculation result whenever
    that build returns, whatever the sign of the profit found. *)
Theorem calculate_outcome (self : UniswapLpCycle)
    (override_state : option (list (Pool * Override))) :
  (forall e : exn,
      _pre_calculation_check self override_state = Raise e ->
      calculate calculate_tokens_out_from_tokens_in minimize_scalar self
        override_state = Raise e)
  /\ (forall (args : minimize_args) (opt : OptimizeResult)
             (opt_fun_int swap_amount : Z),
        _pre_calculation_check self override_state = Ok tt ->
        optimizer_args self = Ok args ->
        minimize_scalar
          (arb_profit calculate_tokens_out_from_tokens_in self
             (_sort_overrides override_state)) args = Ok opt ->
        PyFloat.to_int (opt_fun opt) = inr opt_fun_int ->
        PyFloat.to_int (opt_x opt) = inr swap_amount ->
        (forall e : exn,
            _build_amounts_out calculate_tokens_out_from_tokens_in self
              (input_token self) swap_amount (_sort_overrides override_state)
            = Raise e ->
            calculate calculate_tokens_out_from_tokens_in minimize_scalar self
              override_state
            = Raise (ArbitrageError (No_possible_arbitrage e)))
        /\ (forall best_amounts : list PoolSwapAmounts,
              _build_amounts_out calculate_tokens_out_from_tokens_in self
                (input_token self) swap_amount (_sort_overrides override_state)
              = Ok best_amounts ->
              calculate calculate_tokens_out_from_tokens_in minimize_scalar
                self override_state
              = Ok {| res_id := id self;
                      res_input_token := input_token self;
                      profit_token := input_token self;
                      input_amount := swap_amount;
                      profit_amount := - opt_fun_int;
                      swap_amounts := best_amounts |})).
Proof.
  split.
  - intros e He. unfold calculate. rewrite He. reflexivity.
  - intros args opt opt_fun_int swap_amount Hc Ha Ho Hf Hx.
    rewrite (_calculate_after_check _ _ Hc), Ha. simpl.
    rewrite Ho. simpl. rewrite Hf, Hx. simpl.
    split; intros r Hr; rewrite Hr; reflexivity.
Qed.

(** C5 (as amended): a calculation that returns has called the optimizer
    on the objective with the bounded method, the bounds
    [(1.0, float(max_input))], the bracket
    [(0.45 * max_input, 0.50 * max_input, 0.55 * max_input)] and an
    absolute tolerance of [1.0] on [x]; the result carries
    [input_amount = int(opt.x)] and [profit_amount = -int(opt.fun)], where
    [int] cuts the fractional part off. *)
Theorem _calculate_optimizer_call (self : UniswapLpCycle)
    (override_state : option (list (Pool * Override)))
    (calculation : ArbitrageCalculationResult) :
  _calculate calculate_tokens_out_from_tokens_in minimize_scalar self
    override_state = Ok calculation ->
  exists (upper : spec_float) (opt : OptimizeResult) (opt_fun_int : Z),
    arith (PyFloat.of_int (max_input self)) = Ok upper
    /\ minimize_scalar
         (arb_profit calculate_tokens_out_from_tokens_in self
            (_sort_overrides override_state))
         {| method := Bounded;
            bounds := (PyFloat.f_1_0, upper);
            bracket := (PyFloat.mul PyFloat.f_0_45 upper,
                        PyFloat.mul PyFloat.f_0_50 upper,
                        PyFloat.mul PyFloat.f_0_55 upper);
            xatol := PyFloat.f_1_0 |}
       = Ok opt
    /\ PyFloat.to_int (opt_x opt) = inr (input_amount calculation)
    /\ PyFloat.to_int (opt_fun opt) = inr opt_fun_int
    /\ profit_amount calculation = - opt_fun_int.
Proof.
  unfold _calculate, optimizer_args.
  destruct (_pre_calculation_check self override_state) as [[]|e];
    simpl; [|discriminate].
  destruct (arith (PyFloat.of_int (max_input self))) as [upper|e];
    simpl; [|discriminate].
  destruct (minimize_scalar _ _) as [opt|e] eqn:Eo; simpl; [|discriminate].
  destruct (PyFloat.to_int (opt_fun opt)) as [e|opt_fun_int] eqn:Ef;
    simpl; [discriminate|].
  destruct (PyFloat.to_int (opt_x opt)) as [e|swap_amount] eqn:Ex;
    simpl; [discriminate|].
  destruct (_build_amounts_out _ _ _ _ _) as [best_amounts|e]; [|discriminate].
  intros [= <-]. simpl. exists upper, opt, opt_fun_int. auto.
Qed.

End CalculationProperties.

(** ** The properties on the example cycles *)

(** The cycle passes the check, so that the optimizer runs; at
    [x = 1.38], a point of the bounds [(1.0, 2.0)], the first pool gives
    nothing for the input of 1, the second pool reverts on an input of
    zero, and the objective is [-float(0 - 1) = 1.0]. *)
Lemma arb_profit_swallows_pool_errors_witness :
  _pre_calculation_check Examples.weth_cycle_steep None = Ok tt
  /\ arb_profit example_tokens_out Examples.weth_cycle_steep ∅
       (PyFloat.literal 138 100)
     = Ok PyFloat.f_1_0.
Proof.
  split; [vm_compute; reflexivity|].
  rewrite (proj1 (arb_profit_swallows_pool_errors example_tokens_out
                    Examples.weth_cycle_steep ∅ (PyFloat.literal 138 100))
             1 EVMRevertError).
  - reflexivity.
  - reflexivity.
  - eapply calls_raise_later with (o := 0); [reflexivity|].
    apply calls_raise_here. reflexivity.
  - reflexivity.
Defined.

Lemma build_amounts_out_zero_output_witness :
  _build_amounts_out example_tokens_out Examples.weth_cycle_thin
    Examples.WETH 1 ∅
  = Raise (ArbitrageError (Zero_output_swap 17)).
Proof.
  apply (proj1 (build_amounts_out_zero_output example_tokens_out
                  Examples.weth_cycle_thin Examples.WETH 1 ∅)
           Examples.weth_usdc_thin).
  apply (calls_reach_zero_here example_tokens_out ∅ 1 0 0
           (Examples.weth_usdc_thin,
            {| token_in := Examples.WETH; token_out := Examples.USDC;
               zero_for_one := true |})).
  reflexivity.
Defined.

Lemma build_amounts_out_records_witness :
  exists amounts : list (Z * Z),
    calls_return example_tokens_out ∅ 1 0 0
      (zip (swap_pools Examples.weth_cycle_back)
           (_swap_vectors Examples.weth_cycle_back)) amounts
    /\ (forall io, amounts !! 0%nat = Some io -> io.1 = 1)
    /\ (forall k io io', amounts !! k = Some io -> amounts !! S k = Some io' ->
                         io'.1 = io.2)
    /\ forall (k : nat) (pool : Pool) (vector : UniswapPoolSwapVector),
         zip (swap_pools Examples.weth_cycle_back)
             (_swap_vectors Examples.weth_cycle_back) !! k
         = Some (pool, vector) ->
         exists qin out : Z,
           amounts !! k = Some (qin, out) /\ out <> 0
           /\ [UniswapV2PoolSwapAmounts (0, 996);
               UniswapV3PoolSwapAmounts 996 false
                 1461446703485210103287273052203988822378723970341] !! k
              = Some match pool with
                     | V2 _ =>
                         UniswapV2PoolSwapAmounts
                           (if zero_for_one vector then (0, out) else (out, 0))
                     | V3 _ =>
                         UniswapV3PoolSwapAmounts qin (zero_for_one vector)
                           (if zero_for_one vector
                            then TickMath.MIN_SQRT_RATIO + 1
                            else TickMath.MAX_SQRT_RATIO - 1)
                     end.
Proof.
  apply (build_amounts_out_records example_tokens_out Examples.weth_cycle_back
           Examples.WETH 1 ∅).
  reflexivity.
Defined.

(** No input of the cycle between 1 and its maximum of 2 leaves a
    profit (the objective is [-0.0] at 1 and [1.0] at 2), every hop gives
    an output, and the calculation returns a result with a profit of
    zero. *)
Lemma calculate_returns_without_profit :
  arb_profit example_tokens_out Examples.weth_cycle ∅ (PyFloat.literal 1 1)
  = Ok (S754_zero true)
  /\ arb_profit example_tokens_out Examples.weth_cycle ∅ (PyFloat.literal 2 1)
     = Ok PyFloat.f_1_0
  /\ exists calculation : ArbitrageCalculationResult,
       calculate example_tokens_out scan_minimize Examples.weth_cycle None
       = Ok calculation
       /\ profit_amount calculation <= 0.
Proof.
  split; [vm_compute; reflexivity|]. split; [vm_compute; reflexivity|].
  eexists. split; [vm_compute; reflexivity | simpl; lia].
Qed.

Lemma calculate_outcome_witness :
  calculate example_tokens_out scan_minimize Examples.weth_cycle_v3 None
  = Ok {| res_id := 7;
          res_input_token := Examples.WETH;
          profit_token := Examples.WETH;
          input_amount := 1;
          profit_amount := - 0;
          swap_amounts := [UniswapV2PoolSwapAmounts (0, 996);
                           UniswapV3PoolSwapAmounts 996 true 4295128740] |}.
Proof.
  refine (proj2 (proj2 (calculate_outcome example_tokens_out scan_minimize
                          Examples.weth_cycle_v3 None)
                   {| method := Bounded;
                      bounds := (PyFloat.f_1_0, PyFloat.literal 2 1);
                      bracket := (PyFloat.mul PyFloat.f_0_45 (PyFloat.literal 2 1),
                                  PyFloat.mul PyFloat.f_0_50 (PyFloat.literal 2 1),
                                  PyFloat.mul PyFloat.f_0_55 (PyFloat.literal 2 1));
                      xatol := PyFloat.f_1_0 |}
                   {| opt_x := PyFloat.f_1_0; opt_fun := S754_zero true |}
                   0 1 _ _ _ _ _)
            _ _);
    vm_compute; reflexivity.
Defined.

(** The optimizer stops at [x = 1.65], which rounds to 2, and the input
    amount of the result is 1. *)
Lemma _calculate_input_amount_not_rounded :
  exists (args : minimize_args) (opt : OptimizeResult)
         (calculation : ArbitrageCalculationResult),
    optimizer_args Examples.weth_cycle_3 = Ok args
    /\ bracket_minimize
         (arb_profit example_tokens_out Examples.weth_cycle_3 ∅) args
       = Ok opt
    /\ _calculate example_tokens_out bracket_minimize Examples.weth_cycle_3 None
       = Ok calculation
    /\ py_round (opt_x opt) = inr 2
    /\ input_amount calculation = 1.
Proof.
  do 3 eexists.
  split; [vm_compute; reflexivity|].
  split; [vm_compute; reflexivity|].
  split; [vm_compute; reflexivity|].
  split; reflexivity.
Qed.

Lemma _calculate_optimizer_call_witness :
  exists (upper : spec_float) (opt : OptimizeResult) (opt_fun_int : Z),
    arith (PyFloat.of_int (max_input Examples.weth_cycle_v3)) = Ok upper
    /\ scan_minimize
         (arb_profit example_tokens_out Examples.weth_cycle_v3
            (_sort_overrides None))
         {| method := Bounded;
            bounds := (PyFloat.f_1_0, upper);
            bracket := (PyFloat.mul PyFloat.f_0_45 upper,
                        PyFloat.mul PyFloat.f_0_50 upper,
                        PyFloat.mul PyFloat.f_0_55 upper);
            xatol := PyFloat.f_1_0 |}
       = Ok opt
    /\ PyFloat.to_int (opt_x opt) = inr 1
    /\ PyFloat.to_int (opt_fun opt) = inr opt_fun_int
    /\ 0 = - opt_fun_int.
Proof.
  apply (_calculate_optimizer_call example_tokens_out scan_minimize
           Examples.weth_cycle_v3 None
           {| res_id := 7;
              res_input_token := Examples.WETH;
              profit_token := Examples.WETH;
              input_amount := 1;
              profit_amount := 0;
              swap_amounts := [UniswapV2PoolSwapAmounts (0, 996);
                               UniswapV3PoolSwapAmounts 996 true 4295128740] |}).
  vm_compute. reflexivity.
Defined.

(** The V2 swap calculation of the examples on the scenarios of the test
    suite for the WBTC/WETH pool. *)
Example v2_tokens_out_wbtc_in :
  example_tokens_out Examples.wbtc_weth Examples.WBTC 8000000000 None
  = Ok 847228560678214929944.
Proof. reflexivity. Qed.

Example v2_tokens_out_weth_in :
  example_tokens_out Examples.wbtc_weth Examples.WETH
    1200000000000000000000 None
  = Ok 5154005339.
Proof. reflexivity. Qed.

Example v2_tokens_out_override :
  example_tokens_out Examples.wbtc_weth Examples.WBTC 8000000000
    (Some (V2State {| reserves_token0 := 16027096956;
                      reserves_token1 := 2602647332090181827846 |}))
  = Ok 864834865217768537471.
Proof. reflexivity. Qed.

Example v2_tokens_out_last_unit :
  example_tokens_out Examples.wbtc_weth Examples.WBTC (2 ^ 256 - 1) None
  = Ok (2571336301536722443178 - 1).
Proof. reflexivity. Qed.

(** * Further properties *)

(** ** The overrides *)

Lemma sort_overrides_loop_lookup (l : list (Pool * Override)) :
  forall (m : gmap N PoolState) (a : N),
    foldl (fun sorted_overrides '(pool, override) =>
             <[address pool := override_pool_state override]> sorted_overrides)
          m l !! a
    = match last (filter (fun po : Pool * Override => address po.1 = a) l) with
      | Some po => Some (override_pool_state po.2)
      | None => m !! a
      end.
Proof.
  induction l as [|[pool override] rest IH]; intros m a; simpl.
  - reflexivity.
  - rewrite IH, filter_cons. simpl.
    destruct (decide (address pool = a)) as [<-|Hne].
    + rewrite last_cons.
      destruct (last (filter _ rest)); [reflexivity|].
      simpl. apply lookup_insert_eq.
    + destruct (last (filter _ rest)); [reflexivity|].
      apply lookup_insert_ne. exact Hne.
Qed.

(** X1: the state [_sort_overrides] gives for an address is that of the
    last override in the sequence whose pool has the address, the future
    state when the override is a simulation result; an address without an
    override, and every address when no overrides are given, has none. *)
Theorem sort_overrides_lookup (overrides : option (list (Pool * Override)))
    (a : N) :
  _sort_overrides overrides !! a
  = match overrides with
    | None => None
    | Some l =>
        po ← last (filter (fun po : Pool * Override => address po.1 = a) l);
        Some (override_pool_state po.2)
    end.
Proof.
  destruct overrides as [l|]; simpl.
  - rewrite sort_overrides_loop_lookup.
    destruct (last (filter _ l)); reflexivity.
  - apply lookup_empty.
Qed.

(** ** The check, again *)

Lemma effective_state_agree (so so' : gmap N PoolState) (pool : Pool) :
  so !! address pool = so' !! address pool ->
  effective_state so pool = effective_state so' pool.
Proof. unfold effective_state. intros ->. reflexivity. Qed.

Lemma pre_calculation_loop_agree (so so' : gmap N PoolState)
    (hops : list (Pool * UniswapPoolSwapVector)) :
  Forall (fun hop => so !! address hop.1 = so' !! address hop.1) hops ->
  forall pf : spec_float,
    pre_calculation_loop so pf hops = pre_calculation_loop so' pf hops.
Proof.
  induction 1 as [|[pool vector] rest H _ IH]; intros pf; simpl.
  - reflexivity.
  - assert (hop_step so pool vector = hop_step so' pool vector) as ->.
    { unfold hop_step. rewrite (effective_state_agree so so' pool H).
      reflexivity. }
    destruct (hop_step so' pool vector) as [factor|e]; simpl;
      [apply IH | reflexivity].
Qed.

Lemma zip_pools_Forall (P : Pool -> Prop) (pools : list Pool)
    (vectors : list UniswapPoolSwapVector) :
  (forall pool, pool ∈ pools -> P pool) ->
  Forall (fun hop : Pool * UniswapPoolSwapVector => P hop.1) (zip pools vectors).
Proof.
  intros H. apply Forall_forall. intros [pool vector] Hin.
  apply H. eapply elem_of_zip_l. exact Hin.
Qed.

Lemma hop_price_not_passing (pool : Pool) (vector : UniswapPoolSwapVector)
    (pool_state : PoolState) :
  state_of_kind pool pool_state = true ->
  ~ passes_liquidity_check pool vector pool_state ->
  exists msg,
    hop_price pool vector pool_state
    = Raise (ZeroLiquidityError (address pool) msg).
Proof.
  intros Hk Hn.
  destruct (hop_price_outcome pool vector pool_state Hk)
    as [(price & Hp) | [(msg & Hp) | (e & Hp)]].
  - exfalso. apply Hn. unfold passes_liquidity_check. rewrite Hp. exact I.
  - eauto.
  - exfalso. apply Hn. unfold passes_liquidity_check. rewrite Hp. exact I.
Qed.

Lemma pre_calculation_loop_liquidity_first (so : gmap N PoolState)
    (hops : list (Pool * UniswapPoolSwapVector)) :
  Forall (fun hop =>
            state_of_kind hop.1 (effective_state so hop.1) = true
            /\ is_arithmetic_error (hop_step so hop.1 hop.2) = false) hops ->
  Exists (fun hop =>
            ~ passes_liquidity_check hop.1 hop.2 (effective_state so hop.1))
    hops ->
  forall pf : spec_float,
  exists a msg,
    pre_calculation_loop so pf hops
    = Raise (ZeroLiquidityError a msg).
Proof.
  induction 1 as [|[pool vector] rest [Hk Ha] HF IH]; intros HE pf.
  - inversion HE.
  - simpl in *.
    destruct (hop_step_outcome so pool vector Hk Ha) as [(f & Hs) | (msg & Hs)];
      rewrite Hs; simpl; [|eauto].
    apply IH. apply Exists_cons in HE as [Hn | HE]; [|exact HE].
    exfalso. simpl in Hn.
    destruct (hop_price_not_passing _ _ _ Hk Hn) as (msg & Hp).
    unfold hop_step in Hs. rewrite Hp in Hs. discriminate.
Qed.

(** X2: when some hop of the cycle fails its liquidity check (the states
    being of the pools' kinds and the arithmetic in range), the check
    raises a [ZeroLiquidityError]: it neither passes nor reports that
    there is no profit, whatever the prices are. *)
Theorem pre_check_liquidity_before_profit (self : UniswapLpCycle)
    (override_state : option (list (Pool * Override))) :
  Forall (fun hop =>
            state_of_kind hop.1
              (effective_state (_sort_overrides override_state) hop.1) = true
            /\ is_arithmetic_error
                 (hop_step (_sort_overrides override_state) hop.1 hop.2)
               = false)
    (zip (swap_pools self) (_swap_vectors self)) ->
  Exists (fun hop =>
            ~ passes_liquidity_check hop.1 hop.2
                (effective_state (_sort_overrides override_state) hop.1))
    (zip (swap_pools self) (_swap_vectors self)) ->
  exists a msg,
    _pre_calculation_check self override_state
    = Raise (ZeroLiquidityError a msg).
Proof.
  intros HF HE. unfold _pre_calculation_check.
  destruct (pre_calculation_loop_liquidity_first _ _ HF HE PyFloat.f_1_0)
    as (a & msg & ->).
  simpl. eauto.
Qed.

Lemma pre_check_liquidity_before_profit_witness :
  exists a msg,
    _pre_calculation_check Examples.weth_cycle_dust None
    = Raise (ZeroLiquidityError a msg).
Proof.
  apply (pre_check_liquidity_before_profit Examples.weth_cycle_dust None).
  - repeat constructor; vm_compute; reflexivity.
  - apply Exists_cons_tl, Exists_cons_hd. vm_compute. tauto.
Defined.

(** ** The calculation, again *)

Section CalculationExtras.

Variable calculate_tokens_out_from_tokens_in :
  Pool -> Erc20Token -> Z -> option PoolState -> result Z.

Variable minimize_scalar :
  (spec_float -> result spec_float) -> minimize_args -> result OptimizeResult.

Lemma calculate_check_twice (self : UniswapLpCycle)
    (override_state : option (list (Pool * Override))) :
  calculate calculate_tokens_out_from_tokens_in minimize_scalar self
    override_state
  = _calculate calculate_tokens_out_from_tokens_in minimize_scalar self
      override_state.
Proof.
  unfold calculate, _calculate.
  destruct (_pre_calculation_check self override_state) as [[]|e]; reflexivity.
Qed.

Lemma build_amounts_loop_agree (so so' : gmap N PoolState) (tin : Z)
    (hops : list (Pool * UniswapPoolSwapVector)) :
  Forall (fun hop => so !! address hop.1 = so' !! address hop.1) hops ->
  forall (i : nat) (out : Z),
    build_amounts_loop calculate_tokens_out_from_tokens_in so tin i out hops
    = build_amounts_loop calculate_tokens_out_from_tokens_in so' tin i out hops.
Proof.
  induction 1 as [|[pool vector] rest H _ IH]; intros i out; simpl.
  - reflexivity.
  - simpl in H. rewrite H.
    destruct (calculate_tokens_out_from_tokens_in pool _ _ _) as [o|e];
      [|reflexivity].
    rewrite IH. reflexivity.
Qed.

Lemma arb_profit_loop_agree (so so' : gmap N PoolState) (tin : Z)
    (hops : list (Pool * UniswapPoolSwapVector)) :
  Forall (fun hop => so !! address hop.1 = so' !! address hop.1) hops ->
  forall (i : nat) (out : Z),
    arb_profit_loop calculate_tokens_out_from_tokens_in so tin i out hops
    = arb_profit_loop calculate_tokens_out_from_tokens_in so' tin i out hops.
Proof.
  induction 1 as [|[pool vector] rest H _ IH]; intros i out; simpl.
  - reflexivity.
  - simpl in H. rewrite H.
    destruct (calculate_tokens_out_from_tokens_in pool _ _ _) as [o|e];
      [apply IH | reflexivity].
Qed.

(** X4: the check, the objective and the build of the swap amounts read
    the overrides at the addresses of the cycle's pools only: overrides
    that agree there, such as those with and without an override for a
    pool outside the cycle, give the same outcomes. *)
Theorem overrides_of_other_pools_ignored (self : UniswapLpCycle)
    (override_state override_state' : option (list (Pool * Override))) :
  (forall pool,
      pool ∈ swap_pools self ->
      _sort_overrides override_state !! address pool
      = _sort_overrides override_state' !! address pool) ->
  _pre_calculation_check self override_state
  = _pre_calculation_check self override_state'
  /\ (forall (x : spec_float),
        arb_profit calculate_tokens_out_from_tokens_in self
          (_sort_overrides override_state) x
        = arb_profit calculate_tokens_out_from_tokens_in self
            (_sort_overrides override_state') x)
  /\ (forall (token : Erc20Token) (tin : Z),
        _build_amounts_out calculate_tokens_out_from_tokens_in self token tin
          (_sort_overrides override_state)
        = _build_amounts_out calculate_tokens_out_from_tokens_in self token tin
            (_sort_overrides override_state')).
Proof.
  intros H.
  pose proof (zip_pools_Forall
                (fun pool =>
                   _sort_overrides override_state !! address pool
                   = _sort_overrides override_state' !! address pool)
                (swap_pools self) (_swap_vectors self) H) as HF.
  split; [|split].
  - unfold _pre_calculation_check.
    rewrite (pre_calculation_loop_agree _ _ _ HF). reflexivity.
  - intros x. unfold arb_profit.
    destruct (arith (PyFloat.to_int x)) as [tin|e]; simpl; [|reflexivity].
    rewrite (arb_profit_loop_agree _ _ tin _ HF). reflexivity.
  - intros token tin. unfold _build_amounts_out.
    apply build_amounts_loop_agree. exact HF.
Qed.

Lemma build_amounts_loop_raises (so : gmap N PoolState) (tin : Z) (i : nat)
    (out : Z) (hops : list (Pool * UniswapPoolSwapVector)) (e : exn) :
  calls_raise_after_outputs calculate_tokens_out_from_tokens_in so tin i out
    hops e ->
  build_amounts_loop calculate_tokens_out_from_tokens_in so tin i out hops
  = Raise (build_exception e).
Proof.
  intros H.
  induction H as [i out [pool vector] rest e H
                 | i out [pool vector] rest o e H Ho _ IH];
    unfold hop_call, hop_input in H; simpl in H; simpl; rewrite H.
  - destruct e; reflexivity.
  - apply Z.eqb_neq in Ho. rewrite Ho, IH. reflexivity.
Qed.

Lemma build_amounts_loop_Raise (so : gmap N PoolState) (tin : Z)
    (hops : list (Pool * UniswapPoolSwapVector)) :
  forall (i : nat) (out : Z) (e : exn),
    build_amounts_loop calculate_tokens_out_from_tokens_in so tin i out hops
    = Raise e ->
    (exists pool,
        calls_reach_zero calculate_tokens_out_from_tokens_in so tin i out
          hops pool
        /\ e = ArbitrageError (Zero_output_swap (address pool)))
    \/ (exists e0,
          calls_raise_after_outputs calculate_tokens_out_from_tokens_in so tin
            i out hops e0
          /\ e = build_exception e0).
Proof.
  induction hops as [|[pool vector] rest IH]; intros i out e; simpl.
  - discriminate.
  - destruct (calculate_tokens_out_from_tokens_in pool (token_in vector) _ _)
      as [o|e0] eqn:Ec.
    + destruct (o =? 0) eqn:Eo.
      * apply Z.eqb_eq in Eo. subst o. intros [= <-]. left. exists pool.
        split; [|reflexivity].
        apply (calls_reach_zero_here _ _ _ i out (pool, vector) rest). exact Ec.
      * apply Z.eqb_neq in Eo. intros H.
        apply bind_Raise in H as [H | (records & _ & H)]; [|discriminate].
        destruct (IH _ _ _ H) as [(p & Hz & ->) | (e1 & Hr & ->)].
        -- left. exists p. split; [|reflexivity].
           eapply (calls_reach_zero_later _ _ _ i out (pool, vector));
             eassumption.
        -- right. exists e1. split; [|reflexivity].
           eapply (calls_raise_after_outputs_later _ _ _ i out (pool, vector));
             eassumption.
    + intros H. right. exists e0. split.
      * apply (calls_raise_after_outputs_here _ _ _ i out (pool, vector) rest).
        exact Ec.
      * destruct e0; injection H as <-; reflexivity.
Qed.

(** X5: the exceptions of the build of the swap amounts.  When the first
    call that raises (those before it returning amounts other than zero)
    raises a [LiquidityPoolError], the build raises an [ArbitrageError]
    that carries it; when it raises anything else, an [EVMRevertError]
    or a [ZeroLiquidityError] among them, the build raises that
    exception unchanged.  Every exception of the build is one of these
    or that of a zero output, so the build never raises a
    [LiquidityPoolError]. *)
Theorem build_amounts_out_exceptions (self : UniswapLpCycle)
    (token : Erc20Token) (tin : Z) (so : gmap N PoolState) :
  (forall e0 : exn,
      calls_raise_after_outputs calculate_tokens_out_from_tokens_in so tin 0 0
        (zip (swap_pools self) (_swap_vectors self)) e0 ->
      _build_amounts_out calculate_tokens_out_from_tokens_in self token tin so
      = Raise (match e0 with
               | LiquidityPoolError l => ArbitrageError (Calculate_tokens_out l)
               | _ => e0
               end))
  /\ (forall e : exn,
        _build_amounts_out calculate_tokens_out_from_tokens_in self token tin so
        = Raise e ->
        ((exists pool,
             calls_reach_zero calculate_tokens_out_from_tokens_in so tin 0 0
               (zip (swap_pools self) (_swap_vectors self)) pool
             /\ e = ArbitrageError (Zero_output_swap (address pool)))
         \/ (exists e0,
               calls_raise_after_outputs calculate_tokens_out_from_tokens_in
                 so tin 0 0 (zip (swap_pools self) (_swap_vectors self)) e0
               /\ e = build_exception e0))
        /\ forall l, e <> LiquidityPoolError l).
Proof.
  split.
  - intros e0 H. apply (build_amounts_loop_raises _ _ _ _ _ _ H).
  - intros e H. apply build_amounts_loop_Raise in H. split; [exact H|].
    intros l ->.
    destruct H as [(pool & _ & H) | (e0 & _ & H)]; [discriminate|].
    destruct e0; discriminate.
Qed.

End CalculationExtras.

Section ObjectiveAndBuild.

Variable calculate_tokens_out_from_tokens_in :
  Pool -> Erc20Token -> Z -> option PoolState -> result Z.

Variable minimize_scalar :
  (spec_float -> result spec_float) -> minimize_args -> result OptimizeResult.

Lemma arb_profit_loop_calls_return (so : gmap N PoolState) (tin : Z) (i : nat)
    (out : Z) (hops : list (Pool * UniswapPoolSwapVector))
    (amounts : list (Z * Z)) :
  calls_return calculate_tokens_out_from_tokens_in so tin i out hops amounts ->
  arb_profit_loop calculate_tokens_out_from_tokens_in so tin i out hops
  = Ok (default out (snd <$> last amounts)).
Proof.
  induction 1 as [|i out [pool vector] rest o amounts Hc _ IH]; simpl.
  - reflexivity.
  - unfold hop_call, hop_input in Hc. simpl in Hc. rewrite Hc, IH.
    rewrite last_cons. destruct (last amounts); reflexivity.
Qed.

(** X6: at an input for which the build of the swap amounts returns, the
    objective of the optimizer is the negated difference, as a float,
    between the amount out of the last hop of that build and the input:
    the optimizer and the validation that follows it see the same swap. *)
Theorem objective_agrees_with_build (self : UniswapLpCycle)
    (token : Erc20Token) (so : gmap N PoolState) (x : spec_float) (tin : Z)
    (records : list PoolSwapAmounts) :
  PyFloat.to_int x = inr tin ->
  _build_amounts_out calculate_tokens_out_from_tokens_in self token tin so
  = Ok records ->
  exists amounts : list (Z * Z),
    calls_return calculate_tokens_out_from_tokens_in so tin 0 0
      (zip (swap_pools self) (_swap_vectors self)) amounts
    /\ length amounts = length records
    /\ arb_profit calculate_tokens_out_from_tokens_in self so x
       = (profit ← arith (PyFloat.of_int
                            (default 0 (snd <$> last amounts) - tin));
          Ok (PyFloat.neg profit)).
Proof.
  intros Hx Hb.
  destruct (build_amounts_out_Ok _ _ _ _ _ _ Hb) as (amounts & Hc & _ & ->).
  exists amounts. split; [exact Hc|].
  pose proof (calls_return_length _ _ _ _ _ _ _ Hc) as Hlen.
  split; [rewrite length_zip_with; lia|].
  unfold arb_profit. rewrite Hx. simpl.
  rewrite (arb_profit_loop_calls_return _ _ _ _ _ _ Hc). reflexivity.
Qed.

Lemma records_of_kind (pools : list Pool) :
  forall (vectors : list UniswapPoolSwapVector) (amounts : list (Z * Z)),
    length vectors = length pools ->
    length amounts = length pools ->
    Forall2 amounts_of_kind pools
      (zip_with (fun hop io => hop_amounts hop.1 (zero_for_one hop.2) io.1 io.2)
         (zip pools vectors) amounts).
Proof.
  induction pools as [|pool rest IH]; intros [|v vectors] [|io amounts] Hv Ha;
    simpl in *; try discriminate; constructor.
  - destruct pool; exact I.
  - apply IH; lia.
Qed.

(** X7: the result [calculate] returns for a cycle the constructor built
    carries the id and, as input and as profit token, the input token the
    cycle was built with, and one record of swap amounts for each pool, of
    the kind of the pool. *)
Theorem calculation_of_constructed_cycle (token : Erc20Token)
    (pools : list Pool) (n : N) (m : option Z) (self : UniswapLpCycle)
    (override_state : option (list (Pool * Override)))
    (calculation : ArbitrageCalculationResult) :
  (__init__ token pools n m).2 = Ok self ->
  calculate calculate_tokens_out_from_tokens_in minimize_scalar self
    override_state = Ok calculation ->
  res_id calculation = n
  /\ res_input_token calculation = token
  /\ profit_token calculation = token
  /\ length (swap_amounts calculation) = length pools
  /\ Forall2 amounts_of_kind pools (swap_amounts calculation).
Proof.
  intros Hi.
  apply init_Ok in Hi as (vectors & Hv & ->).
  apply swap_vectors_from_linked in Hv as [Hv _].
  apply Forall2_length in Hv.
  unfold calculate, _calculate. simpl.
  match goal with
  | |- context [_pre_calculation_check ?c override_state] =>
      destruct (_pre_calculation_check c override_state) as [[]|e];
      simpl; [|discriminate]
  end.
  match goal with
  | |- context [optimizer_args ?c] =>
      destruct (optimizer_args c) as [args|e]; simpl; [|discriminate]
  end.
  destruct (minimize_scalar _ _) as [opt|e]; simpl; [|discriminate].
  destruct (arith (PyFloat.to_int (opt_fun opt))) as [fi|e];
    simpl; [|discriminate].
  destruct (arith (PyFloat.to_int (opt_x opt))) as [sa|e];
    simpl; [|discriminate].
  destruct (_build_amounts_out _ _ _ _ _) as [records|e] eqn:Eb; [|discriminate].
  intros [= <-]. simpl.
  destruct (build_amounts_out_Ok _ _ _ _ _ _ Eb) as (amounts & Hr & _ & ->).
  pose proof (calls_return_length _ _ _ _ _ _ _ Hr) as Hal.
  simpl in Hal. rewrite length_zip in Hal.
  assert (Forall2 amounts_of_kind pools
            (zip_with
               (fun hop io => hop_amounts hop.1 (zero_for_one hop.2) io.1 io.2)
               (zip pools vectors) amounts)) as HF.
  { apply records_of_kind; lia. }
  simpl. repeat split; try reflexivity; [|exact HF].
  symmetry. eapply Forall2_length. exact HF.
Qed.

End ObjectiveAndBuild.

Lemma overrides_of_other_pools_ignored_witness :
  _pre_calculation_check Examples.weth_cycle None
  = _pre_calculation_check Examples.weth_cycle
      (Some [(Examples.usdc_wbtc,
              Override_state (V2State {| reserves_token0 := 0;
                                         reserves_token1 := 0 |}))]).
Proof.
  apply (overrides_of_other_pools_ignored example_tokens_out
           Examples.weth_cycle None
           (Some [(Examples.usdc_wbtc,
                   Override_state (V2State {| reserves_token0 := 0;
                                              reserves_token1 := 0 |}))])).
  intros pool Hin. simpl in Hin.
  apply elem_of_cons in Hin as [-> | Hin]; [reflexivity|].
  apply elem_of_cons in Hin as [-> | Hin]; [reflexivity|].
  inversion Hin.
Defined.

(** The build at an input of zero: the first pool raises a
    [ZeroSwapError], a [LiquidityPoolError], and the build raises the
    [ArbitrageError] that carries it. *)
Lemma build_amounts_out_exceptions_witness :
  _build_amounts_out example_tokens_out Examples.weth_cycle Examples.WETH 0 ∅
  = Raise (ArbitrageError (Calculate_tokens_out ZeroSwapError)).
Proof.
  apply (proj1 (build_amounts_out_exceptions example_tokens_out
                  Examples.weth_cycle Examples.WETH 0 ∅)
           (LiquidityPoolError ZeroSwapError)).
  apply calls_raise_after_outputs_here. reflexivity.
Defined.

Lemma objective_agrees_with_build_witness :
  exists amounts : list (Z * Z),
    calls_return example_tokens_out ∅ 1 0 0
      (zip (swap_pools Examples.weth_cycle_back)
           (_swap_vectors Examples.weth_cycle_back)) amounts
    /\ length amounts = 2%nat
    /\ arb_profit example_tokens_out Examples.weth_cycle_back ∅ PyFloat.f_1_0
       = (profit ← arith (PyFloat.of_int
                            (default 0 (snd <$> last amounts) - 1));
          Ok (PyFloat.neg profit)).
Proof.
  apply (objective_agrees_with_build example_tokens_out
           Examples.weth_cycle_back Examples.WETH ∅ PyFloat.f_1_0 1
           [UniswapV2PoolSwapAmounts (0, 996);
            UniswapV3PoolSwapAmounts 996 false
              1461446703485210103287273052203988822378723970341]).
  - reflexivity.
  - reflexivity.
Defined.

Lemma calculation_of_constructed_cycle_witness :
  exists calculation : ArbitrageCalculationResult,
    calculate example_tokens_out scan_minimize Examples.weth_cycle_back None
    = Ok calculation
    /\ length (swap_amounts calculation) = 2%nat
    /\ Forall2 amounts_of_kind [Examples.weth_usdc; Examples.weth_usdc_v3]
         (swap_amounts calculation).
Proof.
  eexists. split; [vm_compute; reflexivity|].
  apply (calculation_of_constructed_cycle example_tokens_out scan_minimize
           Examples.WETH [Examples.weth_usdc; Examples.weth_usdc_v3] 7
           (Some 2) Examples.weth_cycle_back None).
  - reflexivity.
  - vm_compute. reflexivity.
Defined.

(** ** The attributes that change *)

Lemma update_pool_states_loop_lookup (pools : list Pool) :
  forall (m : gmap N (option PoolState)) (a : N),
    foldl (fun states pool => <[address pool := Some (state pool)]> states)
      m pools !! a
    = match last (filter (fun pool => address pool = a) pools) with
      | Some pool => Some (Some (state pool))
      | None => m !! a
      end.
Proof.
  induction pools as [|pool rest IH]; intros m a; simpl.
  - reflexivity.
  - rewrite IH, filter_cons.
    destruct (decide (address pool = a)) as [<-|Hne].
    + rewrite last_cons.
      destruct (last (filter _ rest)); [reflexivity|].
      apply lookup_insert_eq.
    + destruct (last (filter _ rest)); [reflexivity|].
      apply lookup_insert_ne. exact Hne.
Qed.

(** X8: after [_update_pool_states] with some pools, the entry of
    [pool_states] for an address is the state of the last of these pools
    that has the address, and the entry it was before when none has it;
    so after an update with the pools of the cycle no pool of the cycle
    is left without a state, and [best] is as before. *)
Theorem update_pool_states_lookup (st : CycleState) (pools : list Pool) :
  (forall a : N,
      pool_states (_update_pool_states st pools) !! a
      = match last (filter (fun pool => address pool = a) pools) with
        | Some pool => Some (Some (state pool))
        | None => pool_states st !! a
        end)
  /\ (forall pool,
        pool ∈ pools ->
        exists pool_state,
          pool_states (_update_pool_states st pools) !! address pool
          = Some (Some pool_state))
  /\ best (_update_pool_states st pools) = best st.
Proof.
  split; [|split].
  - intros a. apply update_pool_states_loop_lookup.
  - intros pool Hin. simpl. rewrite update_pool_states_loop_lookup.
    destruct (last (filter (fun p => address p = address pool) pools))
      as [p|] eqn:El; [eauto|].
    apply last_None in El.
    assert (pool ∈ filter (fun p => address p = address pool) pools) as Hf.
    { apply list_elem_of_filter. split; [reflexivity | exact Hin]. }
    rewrite El in Hf. inversion Hf.
  - reflexivity.
Qed.

Lemma update_pool_states_witness :
  exists pool_state,
    pool_states (_update_pool_states (initial_state Examples.weth_cycle)
                   (swap_pools Examples.weth_cycle))
    !! address Examples.usdc_weth
    = Some (Some pool_state).
Proof.
  apply (proj1 (proj2 (update_pool_states_lookup
                         (initial_state Examples.weth_cycle)
                         (swap_pools Examples.weth_cycle)))).
  apply list_elem_of_further, list_elem_of_here.
Defined.

Section StateExtras.

Variable calculate_tokens_out_from_tokens_in :
  Pool -> Erc20Token -> Z -> option PoolState -> result Z.

Variable minimize_scalar :
  (spec_float -> result spec_float) -> minimize_args -> result OptimizeResult.

Lemma _calculate_Ok (self : UniswapLpCycle)
    (override_state : option (list (Pool * Override)))
    (calculation : ArbitrageCalculationResult) :
  _calculate calculate_tokens_out_from_tokens_in minimize_scalar self
    override_state = Ok calculation ->
  _build_amounts_out calculate_tokens_out_from_tokens_in self
    (input_token self) (input_amount calculation)
    (_sort_overrides override_state)
  = Ok (swap_amounts calculation).
Proof.
  unfold _calculate.
  destruct (_pre_calculation_check self override_state) as [[]|e];
    simpl; [|discriminate].
  destruct (optimizer_args self) as [args|e]; simpl; [|discriminate].
  destruct (minimize_scalar _ _) as [opt|e]; simpl; [|discriminate].
  destruct (arith (PyFloat.to_int (opt_fun opt))) as [fi|e];
    simpl; [|discriminate].
  destruct (arith (PyFloat.to_int (opt_x opt))) as [sa|e];
    simpl; [|discriminate].
  destruct (_build_amounts_out _ _ _ _ _) as [records|e] eqn:Eb; [|discriminate].
  intros [= <-]. simpl. exact Eb.
Qed.

Lemma _calculate_amounts_of_kind (self : UniswapLpCycle)
    (override_state : option (list (Pool * Override)))
    (calculation : ArbitrageCalculationResult) :
  length (_swap_vectors self) = length (swap_pools self) ->
  _calculate calculate_tokens_out_from_tokens_in minimize_scalar self
    override_state = Ok calculation ->
  Forall2 amounts_of_kind (swap_pools self) (swap_amounts calculation).
Proof.
  intros Hlen Hc. apply _calculate_Ok in Hc.
  destruct (build_amounts_out_Ok _ _ _ _ _ _ Hc) as (amounts & Hr & _ & ->).
  pose proof (calls_return_length _ _ _ _ _ _ _ Hr) as Hal.
  rewrite length_zip in Hal.
  apply records_of_kind; lia.
Qed.

Lemma same_pool_amounts_of_kind (pools pools' : list Pool)
    (records : list PoolSwapAmounts) :
  Forall2 same_pool pools pools' ->
  Forall2 amounts_of_kind pools' records ->
  Forall2 amounts_of_kind pools records.
Proof.
  intros H. revert records.
  induction H as [|pool pool' rest rest' Hs _ IH]; intros records Hk.
  - inversion Hk. constructor.
  - inversion Hk as [|? record ? records' Ha Hr]; subst. constructor.
    + destruct pool, pool', record; simpl in *; tauto.
    + apply IH. exact Hr.
Qed.

Lemma initial_pool_states_keys (pools : list Pool) :
  forall (m : gmap N (option PoolState)) (a : N),
    is_Some (m !! a) \/ (exists pool, pool ∈ pools /\ address pool = a) ->
    is_Some (foldl (fun states pool => <[address pool := None]> states)
               m pools !! a).
Proof.
  induction pools as [|pool rest IH]; intros m a H; simpl.
  - destruct H as [H | (pool & Hin & _)]; [exact H | inversion Hin].
  - apply IH.
    destruct (decide (address pool = a)) as [<-|Hne].
    + left. rewrite lookup_insert_eq. eauto.
    + destruct H as [H | (p & Hin & Hp)].
      * left. rewrite lookup_insert_ne; assumption.
      * apply elem_of_cons in Hin as [-> | Hin]; [contradiction|].
        right. eauto.
Qed.

Lemma reachable_invariant (self : UniswapLpCycle) (st : CycleState) :
  length (_swap_vectors self) = length (swap_pools self) ->
  reachable calculate_tokens_out_from_tokens_in minimize_scalar self st ->
  best_input_token (best st) = input_token self
  /\ best_profit_token (best st) = input_token self
  /\ strategy (best st) = "cycle"
  /\ (swap_amount (best st) = 0
      \/ swap_amount (best st) = last_swap_amount (best st))
  /\ (swap_pool_amounts (best st) = []
      \/ Forall2 amounts_of_kind (swap_pools self) (swap_pool_amounts (best st)))
  /\ (forall pool, pool ∈ swap_pools self ->
                   is_Some (pool_states st !! address pool)).
Proof.
  intros Hlen H.
  induction H as [| st publisher _ IH | st _ IH
                 | st self' override_state r st' _ IH Hs Hc].
  - simpl. repeat split; auto.
    intros pool Hin. apply initial_pool_states_keys. right. eauto.
  - destruct IH as (H1 & H2 & H3 & H4 & H5 & H6).
    destruct publisher as [pool|]; simpl; [|repeat split; auto].
    repeat split; auto.
    intros p Hin. destruct (decide (address pool = address p)) as [E|E].
    + rewrite E, lookup_insert_eq. eauto.
    + rewrite lookup_insert_ne; auto.
  - destruct IH as (H1 & H2 & H3 & H4 & H5 & H6).
    simpl. repeat split; auto.
  - destruct IH as (H1 & H2 & H3 & H4 & H5 & H6).
    unfold calculate_arbitrage in Hc.
    destruct (_calculate _ _ self' override_state) as [c|e] eqn:Ec;
      [|discriminate].
    simpl in Hc. injection Hc as _ <-.
    destruct override_state as [l|]; [repeat split; auto|].
    simpl. repeat split; auto.
    right. destruct Hs as (_ & _ & _ & Hv & Hp).
    apply (same_pool_amounts_of_kind _ _ _ Hp).
    apply (_calculate_amounts_of_kind self' None c); [|exact Ec].
    rewrite Hv, Hlen. eapply Forall2_length. exact Hp.
Qed.

(** X9: whatever notifications, clearings of [best] and arbitrage
    calculations a cycle with as many swap vectors as pools goes through,
    while the states of its pools change, [best] keeps the input token of
    the cycle as its input and profit token and its strategy; its swap
    amount is zero or the last swap amount; its swap amounts per pool are
    none or one record for each pool, of the kind of the pool; and
    [pool_states] has an entry for every pool of the cycle. *)
Theorem reachable_state_invariant (self : UniswapLpCycle) (st : CycleState) :
  length (_swap_vectors self) = length (swap_pools self) ->
  reachable calculate_tokens_out_from_tokens_in minimize_scalar self st ->
  best_input_token (best st) = input_token self
  /\ best_profit_token (best st) = input_token self
  /\ strategy (best st) = "cycle"
  /\ (swap_amount (best st) = 0
      \/ swap_amount (best st) = last_swap_amount (best st))
  /\ (swap_pool_amounts (best st) = []
      \/ Forall2 amounts_of_kind (swap_pools self) (swap_pool_amounts (best st)))
  /\ (forall pool, pool ∈ swap_pools self ->
                   is_Some (pool_states st !! address pool)).
Proof. apply reachable_invariant. Qed.

End StateExtras.

Lemma reachable_state_invariant_witness :
  exists st : CycleState,
    calculate_arbitrage example_tokens_out scan_minimize
      Examples.weth_cycle_back (initial_state Examples.weth_cycle_back) None
    = Ok (false, (1, 0), st)
    /\ swap_amount (best st) = last_swap_amount (best st)
    /\ Forall2 amounts_of_kind (swap_pools Examples.weth_cycle_back)
         (swap_pool_amounts (best st)).
Proof.
  eexists. split; [vm_compute; reflexivity|].
  match goal with
  | |- context [best ?s] =>
      destruct (reachable_state_invariant example_tokens_out scan_minimize
                  Examples.weth_cycle_back s)
        as (_ & _ & _ & [H4 | H4] & [H5 | H5] & _)
  end.
  - reflexivity.
  - eapply reachable_calculate_arbitrage with
      (self' := Examples.weth_cycle_back) (override_state := None).
    + apply reachable_initial.
    + repeat split; repeat constructor.
    + vm_compute. reflexivity.
  - discriminate H4.
  - discriminate H4.
  - discriminate H5.
  - split; [exact H4 | exact H5].
Defined.

(** ** The payloads *)

Section PayloadExtras.

Variable keccak_text : string -> list Byte.byte.
Variable abi_encode : list string -> list abi_value -> option (list Byte.byte).
Variable object_id : nat -> N.

Lemma swap_destination_address_in_range (self : UniswapLpCycle)
    (from_address : N) (i : nat) :
  (i < length (swap_pools self))%nat ->
  swap_destination_address object_id self from_address i
  = inr (if is_last_pool object_id self i then from_address
         else match swap_pools self !! S i with
              | Some (V2 next_pool) => v2_address next_pool
              | _ => from_address
              end).
Proof.
  intros Hi. unfold swap_destination_address.
  destruct (is_last_pool object_id self i) eqn:El; [reflexivity|].
  destruct (swap_pools self !! S i) as [[p|p]|] eqn:En; try reflexivity.
  exfalso. apply lookup_ge_None in En.
  unfold is_last_pool in El.
  replace (length (swap_pools self) - 1)%nat with i in El by lia.
  rewrite N.eqb_refl in El. discriminate.
Qed.

Lemma swap_payload_inr (swap_pool : Pool) (record : PoolSwapAmounts)
    (destination : N) (payload : N * list Byte.byte * Z) :
  swap_payload keccak_text abi_encode swap_pool record destination
  = inr payload ->
  payload.1.1 = address swap_pool /\ payload.2 = 0
  /\ amounts_of_kind swap_pool record.
Proof.
  unfold swap_payload.
  destruct swap_pool as [p|p], record as [[a0 a1]|spec zfo limit];
    try discriminate;
    match goal with
    | |- context [calldata ?k ?e ?s ?t ?a] =>
        destruct (calldata k e s t a) as [cause|data]
    end; simpl; try discriminate; intros [= <-]; simpl; auto.
Qed.

Lemma swap_payload_inl (swap_pool : Pool) (record : PoolSwapAmounts)
    (destination : N) (cause : payload_failure) :
  swap_payload keccak_text abi_encode swap_pool record destination
  = inl cause ->
  (cause = Encoding_failed /\ amounts_of_kind swap_pool record)
  \/ (cause = AttributeError_amounts /\ ~ amounts_of_kind swap_pool record).
Proof.
  unfold swap_payload, calldata.
  destruct swap_pool as [p|p], record as [[a0 a1]|spec zfo limit]; simpl;
    try (intros [= <-]; right; split; [reflexivity | tauto]);
    match goal with
    | |- context [abi_encode ?t ?a] => destruct (abi_encode t a)
    end; simpl; try discriminate; intros [= <-]; left; split; auto.
Qed.

Lemma swap_payloads_inr (self : UniswapLpCycle) (from_address : N)
    (hops : list (Pool * PoolSwapAmounts)) :
  forall (i : nat) (payloads : list (N * list Byte.byte * Z)),
    (i + length hops <= length (swap_pools self))%nat ->
    swap_payloads keccak_text abi_encode object_id self from_address i hops
    = inr payloads ->
    Forall2 (fun hop payload =>
               payload.1.1 = address hop.1 /\ payload.2 = 0
               /\ amounts_of_kind hop.1 hop.2)
      hops payloads
    /\ forall k hop,
         hops !! k = Some hop ->
         exists payload,
           payloads !! k = Some payload
           /\ swap_payload keccak_text abi_encode hop.1 hop.2
                (if is_last_pool object_id self (i + k) then from_address
                 else match swap_pools self !! S (i + k) with
                      | Some (V2 next_pool) => v2_address next_pool
                      | _ => from_address
                      end)
              = inr payload.
Proof.
  induction hops as [|[pool record] rest IH]; intros i payloads Hlen; simpl.
  - intros [= <-]. split; [constructor|]. intros k hop Hk. discriminate.
  - simpl in Hlen.
    rewrite (swap_destination_address_in_range self from_address i) by lia.
    simpl.
    destruct (swap_payload _ _ pool record _) as [cause|payload] eqn:Ep;
      simpl; [discriminate|].
    destruct (swap_payloads _ _ _ self from_address (S i) rest)
      as [cause|others] eqn:Er; simpl; [discriminate|].
    intros [= <-].
    destruct (IH (S i) others) as [HF Hk]; [lia | exact Er |].
    split.
    + constructor; [|exact HF]. apply (swap_payload_inr _ _ _ _ Ep).
    + intros [|k] hop Hh; simpl in Hh.
      * injection Hh as <-. exists payload. split; [reflexivity|].
        rewrite Nat.add_0_r. exact Ep.
      * destruct (Hk k hop Hh) as (p & Hp & Hs). exists p.
        split; [exact Hp|].
        replace (i + S k)%nat with (S i + k)%nat by lia. exact Hs.
Qed.

Lemma swap_payloads_inl (self : UniswapLpCycle) (from_address : N)
    (hops : list (Pool * PoolSwapAmounts)) :
  forall (i : nat) (cause : payload_failure),
    (i + length hops <= length (swap_pools self))%nat ->
    swap_payloads keccak_text abi_encode object_id self from_address i hops
    = inl cause ->
    cause = Encoding_failed
    \/ (cause = AttributeError_amounts
        /\ Exists (fun hop => ~ amounts_of_kind hop.1 hop.2) hops).
Proof.
  induction hops as [|[pool record] rest IH]; intros i cause Hlen; simpl.
  - discriminate.
  - simpl in Hlen.
    rewrite (swap_destination_address_in_range self from_address i) by lia.
    simpl.
    destruct (swap_payload _ _ pool record _) as [c|payload] eqn:Ep; simpl.
    + intros [= <-].
      destruct (swap_payload_inl _ _ _ _ Ep) as [[-> _] | [-> Hn]];
        [left; reflexivity|].
      right. split; [reflexivity|]. apply Exists_cons_hd. exact Hn.
    + destruct (swap_payloads _ _ _ self from_address (S i) rest)
        as [c|others] eqn:Er; simpl; [|discriminate].
      intros [= <-].
      destruct (IH (S i) c) as [-> | [-> HE]]; [lia | exact Er | |].
      * left. reflexivity.
      * right. split; [reflexivity|]. apply Exists_cons_tl. exact HE.
Qed.

Lemma zip_length_le {A B : Type} (l : list A) (k : list B) :
  (length (zip l k) <= length l)%nat.
Proof. rewrite length_zip. lia. Qed.

Lemma transfer_payloads_outcome (self : UniswapLpCycle) (first_pool : Pool)
    (amount : Z) :
  (exists payloads,
      transfer_payloads keccak_text abi_encode self first_pool amount
      = inr payloads
      /\ match first_pool with
         | V2 p =>
             exists data,
               calldata keccak_text abi_encode "transfer(address,uint256)"
                 ["address"; "uint256"]
                 [abi_address (v2_address p); abi_int amount]
               = inr data
               /\ payloads = [(token_address (input_token self), data, 0)]
         | V3 _ => payloads = []
         end)
  \/ transfer_payloads keccak_text abi_encode self first_pool amount
     = inl Encoding_failed.
Proof.
  unfold transfer_payloads. destruct first_pool as [p|p]; [|left; eauto].
  unfold calldata. destruct (abi_encode _ _) as [encoded|]; simpl.
  - left. eauto.
  - right. reflexivity.
Qed.

Lemma generate_payloads_inr (self : UniswapLpCycle) (st : CycleState)
    (from_address : N) (amount : option Z)
    (amounts : option (list PoolSwapAmounts))
    (payloads : list (N * list Byte.byte * Z)) :
  generate_payloads keccak_text abi_encode object_id self st from_address
    amount amounts = inr payloads ->
  exists first_pool transfer swaps,
    head (swap_pools self) = Some first_pool
    /\ default (swap_pool_amounts (best st)) amounts <> []
    /\ transfer_payloads keccak_text abi_encode self first_pool
         (default (swap_amount (best st)) amount) = inr transfer
    /\ swap_payloads keccak_text abi_encode object_id self from_address 0
         (zip (swap_pools self) (default (swap_pool_amounts (best st)) amounts))
       = inr swaps
    /\ payloads = transfer ++ swaps.
Proof.
  unfold generate_payloads. cbv zeta.
  destruct (default (swap_pool_amounts (best st)) amounts) as [|record records];
    [discriminate|].
  destruct (swap_pools self) as [|first_pool rest]; [discriminate|].
  destruct (transfer_payloads _ _ self first_pool _) as [c|transfer] eqn:Et;
    [discriminate|].
  destruct (swap_payloads _ _ _ self from_address 0 _) as [c|swaps] eqn:Es;
    [discriminate|].
  simpl. intros [= <-]. exists first_pool, transfer, swaps.
  repeat split; auto.
Qed.

Lemma zip_fst_take {A B : Type} (l : list A) :
  forall k : list B, (zip l k).*1 = take (length k) l.
Proof.
  induction l as [|x l IH]; intros [|y k]; simpl; try reflexivity.
  rewrite IH. reflexivity.
Qed.

Lemma generate_payloads_inl (self : UniswapLpCycle) (st : CycleState)
    (from_address : N) (amount : option Z)
    (amounts : option (list PoolSwapAmounts)) (e : payload_exn) :
  generate_payloads keccak_text abi_encode object_id self st from_address
    amount amounts = inl e ->
  swap_pools self <> [] ->
  (e = ArbitrageError_pool_amounts_empty
   /\ default (swap_pool_amounts (best st)) amounts = [])
  \/ e = ArbitrageError_catch_all Encoding_failed
  \/ (e = ArbitrageError_catch_all AttributeError_amounts
      /\ Exists (fun hop => ~ amounts_of_kind hop.1 hop.2)
           (zip (swap_pools self)
                (default (swap_pool_amounts (best st)) amounts))).
Proof.
  unfold generate_payloads. cbv zeta.
  destruct (default (swap_pool_amounts (best st)) amounts)
    as [|record records] eqn:Er.
  { intros [= <-] _. left. split; reflexivity. }
  intros He Hp.
  pose proof (swap_payloads_inl self from_address
                (zip (swap_pools self) (record :: records)) 0) as Hin.
  destruct (swap_pools self) as [|first_pool rest]; [contradiction|].
  destruct (transfer_payloads_outcome self first_pool
              (default (swap_amount (best st)) amount))
    as [(transfer & Ht & _) | Ht]; rewrite Ht in He.
  2: { injection He as <-. right. left. reflexivity. }
  destruct (swap_payloads _ _ _ self from_address 0 _) as [c|swaps];
    [|discriminate].
  injection He as <-. right.
  destruct (Hin c) as [-> | [-> HE]].
  - apply zip_length_le.
  - reflexivity.
  - left. reflexivity.
  - right. split; [reflexivity | exact HE].
Qed.

(** X11: what [generate_payloads] raises.  With no swap amounts, given or
    taken from [best], it raises the [ArbitrageError] of empty pool
    amounts, whatever the cycle; with swap amounts and a cycle without
    pools it raises an [IndexError]; and every other exception is the
    [ArbitrageError] of its catch-all, for an encoding that fails or for
    amounts that are not of the kind of their pool: the lookup of the
    next pool never runs past the end of the pools. *)
Theorem generate_payloads_exceptions (self : UniswapLpCycle) (st : CycleState)
    (from_address : N) (amount : option Z)
    (amounts : option (list PoolSwapAmounts)) :
  (default (swap_pool_amounts (best st)) amounts = [] ->
   generate_payloads keccak_text abi_encode object_id self st from_address
     amount amounts = inl ArbitrageError_pool_amounts_empty)
  /\ (default (swap_pool_amounts (best st)) amounts <> [] ->
      swap_pools self = [] ->
      generate_payloads keccak_text abi_encode object_id self st from_address
        amount amounts = inl IndexError_swap_pools)
  /\ (forall e : payload_exn,
        generate_payloads keccak_text abi_encode object_id self st
          from_address amount amounts = inl e ->
        swap_pools self <> [] ->
        e = ArbitrageError_pool_amounts_empty
        \/ e = ArbitrageError_catch_all Encoding_failed
        \/ (e = ArbitrageError_catch_all AttributeError_amounts
            /\ Exists (fun hop => ~ amounts_of_kind hop.1 hop.2)
                 (zip (swap_pools self)
                      (default (swap_pool_amounts (best st)) amounts)))).
Proof.
  split; [|split].
  - unfold generate_payloads. cbv zeta. intros ->. reflexivity.
  - unfold generate_payloads. cbv zeta. intros Hr ->.
    destruct (default (swap_pool_amounts (best st)) amounts);
      [contradiction | reflexivity].
  - intros e He Hp.
    destruct (generate_payloads_inl _ _ _ _ _ _ He Hp) as [[-> _] | H]; auto.
Qed.

Lemma swap_payloads_targets (hops : list (Pool * PoolSwapAmounts))
    (payloads : list (N * list Byte.byte * Z)) :
  Forall2 (fun hop payload =>
             payload.1.1 = address hop.1 /\ payload.2 = 0
             /\ amounts_of_kind hop.1 hop.2)
    hops payloads ->
  Forall (fun payload : N * list Byte.byte * Z => payload.2 = 0) payloads
  /\ (fun payload : N * list Byte.byte * Z => payload.1.1) <$> payloads
     = address <$> hops.*1.
Proof.
  induction 1 as [|hop payload hops ps (Ha & Hv & _) _ [IH1 IH2]].
  - split; [constructor | reflexivity].
  - split; [constructor; assumption|].
    rewrite !fmap_cons. cbv beta. rewrite Ha, IH2. reflexivity.
Qed.

(** X12: the payloads [generate_payloads] returns.  Every payload has the
    value zero.  They go, in this order, to the input token when the first
    pool is a V2 pool (the transfer of the input to that pool), and to the
    pools of the cycle one after the other, as many of them as there are
    swap amounts. *)
Theorem generate_payloads_targets (self : UniswapLpCycle) (st : CycleState)
    (from_address : N) (amount : option Z)
    (amounts : option (list PoolSwapAmounts))
    (payloads : list (N * list Byte.byte * Z)) :
  generate_payloads keccak_text abi_encode object_id self st from_address
    amount amounts = inr payloads ->
  Forall (fun payload => payload.2 = 0) payloads
  /\ (fun payload : N * list Byte.byte * Z => payload.1.1) <$> payloads
     = match head (swap_pools self) with
       | Some (V2 _) => [token_address (input_token self)]
       | _ => []
       end
       ++ (address
             <$> take (length (default (swap_pool_amounts (best st)) amounts))
                   (swap_pools self)).
Proof.
  intros H.
  destruct (generate_payloads_inr _ _ _ _ _ _ H)
    as (first_pool & transfer & swaps & Hh & _ & Ht & Hs & ->).
  destruct (swap_payloads_inr self from_address
              (zip (swap_pools self)
                   (default (swap_pool_amounts (best st)) amounts)) 0 swaps)
    as [HF _]; [simpl; apply zip_length_le | exact Hs |].
  rewrite Hh.
  destruct (swap_payloads_targets _ _ HF) as [Hv Ha].
  rewrite zip_fst_take in Ha.
  destruct (transfer_payloads_outcome self first_pool
              (default (swap_amount (best st)) amount))
    as [(transfer' & Ht' & Hshape) | Ht']; rewrite Ht' in Ht; [|discriminate].
  injection Ht as <-.
  destruct first_pool as [p|p].
  - destruct Hshape as (data & _ & ->). split.
    + constructor; [reflexivity | exact Hv].
    + change ([(token_address (input_token self), data, 0)] ++ swaps)
        with ((token_address (input_token self), data, 0) :: swaps).
      rewrite fmap_cons, Ha. reflexivity.
  - subst transfer'. split; [exact Hv|]. exact Ha.
Qed.

(** X13: where the swaps send their output.  In the payloads
    [generate_payloads] returns, the payload for the pool at index [i] is
    that of a swap with the amounts given for it whose destination is the
    sender's address when the pool is the very object that is the last
    pool of the cycle, and otherwise the address of the next pool when
    that is a V2 pool and the sender's address when it is a V3 pool. *)
Theorem generate_payloads_destinations (self : UniswapLpCycle)
    (st : CycleState) (from_address : N) (amount : option Z)
    (amounts : option (list PoolSwapAmounts))
    (payloads : list (N * list Byte.byte * Z)) :
  generate_payloads keccak_text abi_encode object_id self st from_address
    amount amounts = inr payloads ->
  forall (i : nat) (pool : Pool) (record : PoolSwapAmounts),
    swap_pools self !! i = Some pool ->
    default (swap_pool_amounts (best st)) amounts !! i = Some record ->
    exists payload,
      payloads !! (match head (swap_pools self) with
                   | Some (V2 _) => 1
                   | _ => 0
                   end + i)%nat = Some payload
      /\ swap_payload keccak_text abi_encode pool record
           (if (object_id i =? object_id (length (swap_pools self) - 1))%N
            then from_address
            else match swap_pools self !! S i with
                 | Some (V2 next_pool) => v2_address next_pool
                 | _ => from_address
                 end)
         = inr payload.
Proof.
  intros H i pool record Hp Hr.
  destruct (generate_payloads_inr _ _ _ _ _ _ H)
    as (first_pool & transfer & swaps & Hh & _ & Ht & Hs & ->).
  destruct (swap_payloads_inr self from_address
              (zip (swap_pools self)
                   (default (swap_pool_amounts (best st)) amounts)) 0 swaps)
    as [_ Hk]; [simpl; apply zip_length_le | exact Hs |].
  destruct (Hk i (pool, record)) as (payload & Hl & Hsp).
  { apply lookup_zip_with_Some. exists pool, record. auto. }
  exists payload. split; [|exact Hsp].
  rewrite Hh.
  destruct (transfer_payloads_outcome self first_pool
              (default (swap_amount (best st)) amount))
    as [(transfer' & Ht' & Hshape) | Ht']; rewrite Ht' in Ht; [|discriminate].
  injection Ht as <-.
  destruct first_pool as [p|p].
  - destruct Hshape as (data & _ & ->). simpl. exact Hl.
  - subst transfer'. simpl. exact Hl.
Qed.

End PayloadExtras.

Section PayloadComposition.

Variable calculate_tokens_out_from_tokens_in :
  Pool -> Erc20Token -> Z -> option PoolState -> result Z.
Variable minimize_scalar :
  (spec_float -> result spec_float) -> minimize_args -> result OptimizeResult.
Variable keccak_text : string -> list Byte.byte.
Variable abi_encode : list string -> list abi_value -> option (list Byte.byte).
Variable object_id : nat -> N.

Lemma Forall2_zip_Forall {A B : Type} (P : A -> B -> Prop) (l : list A)
    (k : list B) :
  Forall2 P l k -> Forall (fun ab => P ab.1 ab.2) (zip l k).
Proof. induction 1; simpl; constructor; assumption. Qed.

Lemma generate_payloads_of_kind (self : UniswapLpCycle) (st : CycleState)
    (from_address : N) (amount : option Z) (records : list PoolSwapAmounts) :
  swap_pools self <> [] ->
  Forall2 amounts_of_kind (swap_pools self) records ->
  (exists payloads,
      generate_payloads keccak_text abi_encode object_id self st from_address
        amount (Some records) = inr payloads
      /\ length payloads
         = (match head (swap_pools self) with
            | Some (V2 _) => 1
            | _ => 0
            end + length (swap_pools self))%nat)
  \/ generate_payloads keccak_text abi_encode object_id self st from_address
       amount (Some records) = inl (ArbitrageError_catch_all Encoding_failed).
Proof.
  intros Hp HF.
  destruct (generate_payloads keccak_text abi_encode object_id self st
              from_address amount (Some records)) as [e|payloads] eqn:Eg.
  - right.
    destruct (generate_payloads_inl _ _ _ _ _ _ _ _ _ Eg Hp)
      as [[_ Hr] | [-> | [_ HE]]]; [| reflexivity |].
    + simpl in Hr. subst records. apply Forall2_nil_inv_r in HF.
      contradiction.
    + exfalso. simpl in HE. apply Forall2_zip_Forall in HF.
      rewrite Forall_forall in HF. apply Exists_exists in HE as (hop & Hin & Hn).
      apply Hn, HF, Hin.
  - left. exists payloads. split; [reflexivity|].
    destruct (generate_payloads_inr _ _ _ _ _ _ _ _ _ Eg)
      as (first_pool & transfer & swaps & Hh & _ & Ht & Hs & ->).
    simpl in Hs.
    destruct (swap_payloads_inr keccak_text abi_encode object_id self
                from_address (zip (swap_pools self) records) 0 swaps)
      as [HF' _]; [simpl; apply zip_length_le | exact Hs |].
    apply Forall2_length in HF'. apply Forall2_length in HF.
    rewrite length_zip in HF'.
    rewrite length_app, Hh.
    destruct (transfer_payloads_outcome keccak_text abi_encode self first_pool
                (default (swap_amount (best st)) amount))
      as [(transfer' & Ht' & Hshape) | Ht']; rewrite Ht' in Ht; [|discriminate].
    injection Ht as <-.
    destruct first_pool as [p|p].
    + destruct Hshape as (data & _ & ->). simpl. lia.
    + subst transfer'. simpl. lia.
Qed.

(** X14: the swap amounts of a result that [calculate] returns for a
    cycle with pools, and with as many swap vectors as pools, can be
    handed to [generate_payloads] with the input amount of the result: it
    returns one payload for each pool, and one more before them when the
    first pool is a V2 pool, unless the encoding of an amount fails; it
    never fails for amounts that do not fit their pool. *)
Theorem payloads_of_calculation (self : UniswapLpCycle) (st : CycleState)
    (from_address : N) (override_state : option (list (Pool * Override)))
    (c : ArbitrageCalculationResult) :
  length (_swap_vectors self) = length (swap_pools self) ->
  swap_pools self <> [] ->
  calculate calculate_tokens_out_from_tokens_in minimize_scalar self
    override_state = Ok c ->
  (exists payloads,
      generate_payloads keccak_text abi_encode object_id self st from_address
        (Some (input_amount c)) (Some (swap_amounts c)) = inr payloads
      /\ length payloads
         = (match head (swap_pools self) with
            | Some (V2 _) => 1
            | _ => 0
            end + length (swap_pools self))%nat)
  \/ generate_payloads keccak_text abi_encode object_id self st from_address
       (Some (input_amount c)) (Some (swap_amounts c))
     = inl (ArbitrageError_catch_all Encoding_failed).
Proof.
  intros Hlen Hp Hc. rewrite calculate_check_twice in Hc.
  apply generate_payloads_of_kind; [exact Hp|].
  eapply _calculate_amounts_of_kind; eassumption.
Qed.

(** X15: [generate_payloads] called without amounts takes them from
    [best].  After [clear_best] it raises the [ArbitrageError] of empty
    pool amounts.  In any state a cycle with pools, and with as many swap
    vectors as pools, gets to by notifications, clearings and arbitrage
    calculations, it raises that error when [best] holds no swap amounts,
    and otherwise returns one payload for each pool, and one more when the
    first pool is a V2 pool, unless the encoding of an amount fails. *)
Theorem payloads_from_best (self : UniswapLpCycle) (st : CycleState)
    (from_address : N) :
  length (_swap_vectors self) = length (swap_pools self) ->
  swap_pools self <> [] ->
  reachable calculate_tokens_out_from_tokens_in minimize_scalar self st ->
  generate_payloads keccak_text abi_encode object_id self (clear_best st)
    from_address None None = inl ArbitrageError_pool_amounts_empty
  /\ ((swap_pool_amounts (best st) = []
       /\ generate_payloads keccak_text abi_encode object_id self st
            from_address None None = inl ArbitrageError_pool_amounts_empty)
      \/ (exists payloads,
             generate_payloads keccak_text abi_encode object_id self st
               from_address None None = inr payloads
             /\ length payloads
                = (match head (swap_pools self) with
                   | Some (V2 _) => 1
                   | _ => 0
                   end + length (swap_pools self))%nat)
      \/ generate_payloads keccak_text abi_encode object_id self st
           from_address None None
         = inl (ArbitrageError_catch_all Encoding_failed)).
Proof.
  intros Hlen Hp Hr. split; [reflexivity|].
  destruct (reachable_invariant _ _ self st Hlen Hr)
    as (_ & _ & _ & _ & [He | HF] & _).
  - left. split; [exact He|]. unfold generate_payloads. simpl.
    rewrite He. reflexivity.
  - right.
    destruct (generate_payloads_of_kind self st from_address None
                (swap_pool_amounts (best st)) Hp HF) as [H | H].
    + left. exact H.
    + right. exact H.
Qed.

End PayloadComposition.

Lemma generate_payloads_exceptions_witness :
  generate_payloads example_keccak_text example_abi_encode example_object_id
    {| id := 7; input_token := Examples.WETH; max_input := 2;
       swap_pools := []; _swap_vectors := [] |}
    (initial_state Examples.weth_cycle_back) 99 (Some 1)
    (Some [UniswapV2PoolSwapAmounts (0, 996)])
  = inl IndexError_swap_pools.
Proof.
  apply (proj1 (proj2 (generate_payloads_exceptions example_keccak_text
                         example_abi_encode example_object_id
                         {| id := 7; input_token := Examples.WETH;
                            max_input := 2; swap_pools := [];
                            _swap_vectors := [] |}
                         (initial_state Examples.weth_cycle_back) 99 (Some 1)
                         (Some [UniswapV2PoolSwapAmounts (0, 996)])))).
  - discriminate.
  - reflexivity.
Defined.

Lemma generate_payloads_targets_witness :
  exists payloads,
    generate_payloads example_keccak_text example_abi_encode example_object_id
      Examples.weth_cycle_back (initial_state Examples.weth_cycle_back) 99
      (Some 1)
      (Some [UniswapV2PoolSwapAmounts (0, 996);
             UniswapV3PoolSwapAmounts 996 false
               1461446703485210103287273052203988822378723970341])
    = inr payloads
    /\ (fun payload : N * list Byte.byte * Z => payload.1.1) <$> payloads
       = [1; 11; 18]%N.
Proof.
  eexists. split; [vm_compute; reflexivity|].
  refine (proj2 (generate_payloads_targets example_keccak_text
                   example_abi_encode example_object_id
                   Examples.weth_cycle_back
                   (initial_state Examples.weth_cycle_back) 99 (Some 1)
                   (Some [UniswapV2PoolSwapAmounts (0, 996);
                          UniswapV3PoolSwapAmounts 996 false
                            1461446703485210103287273052203988822378723970341])
                   _ _)).
  vm_compute. reflexivity.
Defined.

Lemma generate_payloads_destinations_witness :
  exists payloads payload,
    generate_payloads example_keccak_text example_abi_encode example_object_id
      Examples.weth_cycle (initial_state Examples.weth_cycle) 99 (Some 1)
      (Some [UniswapV2PoolSwapAmounts (0, 996);
             UniswapV2PoolSwapAmounts (0, 1)])
    = inr payloads
    /\ payloads !! 1%nat = Some payload
    /\ swap_payload example_keccak_text example_abi_encode
         Examples.weth_usdc (UniswapV2PoolSwapAmounts (0, 996)) 12
       = inr payload.
Proof.
  eexists.
  destruct (generate_payloads_destinations example_keccak_text
              example_abi_encode example_object_id Examples.weth_cycle
              (initial_state Examples.weth_cycle) 99 (Some 1)
              (Some [UniswapV2PoolSwapAmounts (0, 996);
                     UniswapV2PoolSwapAmounts (0, 1)])
              _ ltac:(vm_compute; reflexivity)
              0%nat Examples.weth_usdc (UniswapV2PoolSwapAmounts (0, 996))
              eq_refl eq_refl) as (payload & Hl & Hs).
  exists payload. split; [reflexivity|]. split; [exact Hl | exact Hs].
Defined.

Lemma payloads_of_calculation_witness :
  exists payloads,
    generate_payloads example_keccak_text example_abi_encode example_object_id
      Examples.weth_cycle_back (initial_state Examples.weth_cycle_back) 99
      (Some 1)
      (Some [UniswapV2PoolSwapAmounts (0, 996);
             UniswapV3PoolSwapAmounts 996 false
               1461446703485210103287273052203988822378723970341])
    = inr payloads
    /\ length payloads = 3%nat.
Proof.
  destruct (payloads_of_calculation example_tokens_out scan_minimize
              example_keccak_text example_abi_encode example_object_id
              Examples.weth_cycle_back
              (initial_state Examples.weth_cycle_back) 99 None
              {| res_id := 7; res_input_token := Examples.WETH;
                 profit_token := Examples.WETH; input_amount := 1;
                 profit_amount := 0;
                 swap_amounts :=
                   [UniswapV2PoolSwapAmounts (0, 996);
                    UniswapV3PoolSwapAmounts 996 false
                      1461446703485210103287273052203988822378723970341] |})
    as [H | H].
  - reflexivity.
  - discriminate.
  - vm_compute. reflexivity.
  - exact H.
  - exfalso. vm_compute in H. discriminate H.
Defined.

Lemma payloads_from_best_witness :
  generate_payloads example_keccak_text example_abi_encode example_object_id
    Examples.weth_cycle_back
    (clear_best (initial_state Examples.weth_cycle_back)) 99 None None
  = inl ArbitrageError_pool_amounts_empty.
Proof.
  apply (payloads_from_best example_tokens_out scan_minimize
           example_keccak_text example_abi_encode example_object_id
           Examples.weth_cycle_back (initial_state Examples.weth_cycle_back)
           99).
  - reflexivity.
  - discriminate.
  - apply reachable_initial.
Defined.

(** ** [calculate_with_pool] *)

Lemma sparse_bitmap_exists (pools : list Pool) :
  existsb (fun b : bool => b)
    (omap (fun pool => match pool with
                       | V3 p => Some (_sparse_bitmap p)
                       | V2 _ => None
                       end) pools) = true
  <-> exists p, V3 p ∈ pools /\ _sparse_bitmap p = true.
Proof.
  induction pools as [|[p|p] rest IH]; simpl.
  - split; [discriminate | intros (p & Hin & _); inversion Hin].
  - rewrite IH. split; intros (q & Hin & Hq); exists q; split; auto.
    + apply list_elem_of_further. exact Hin.
    + apply elem_of_cons in Hin as [[=] | Hin]. exact Hin.
  - rewrite orb_true_iff, IH. split.
    + intros [Hp | (q & Hin & Hq)].
      * exists p. split; [apply list_elem_of_here | exact Hp].
      * exists q. split; [apply list_elem_of_further; exact Hin | exact Hq].
    + intros (q & Hin & Hq).
      apply elem_of_cons in Hin as [[= ->] | Hin]; [left; exact Hq|].
      right. eauto.
Qed.

(** X16: [calculate_with_pool] raises its [ValueError] exactly when some
    V3 pool of the cycle has a sparse bitmap, before it checks anything
    else, so that V2 pools never make it refuse; otherwise it raises what
    the pre-calculation check raises; and otherwise it hands [_calculate]
    to the executor with the overrides it was given, which, run on the
    cycle as it is, returns and raises what [calculate] does. *)
Theorem calculate_with_pool_outcome (self : UniswapLpCycle)
    (override_state : option (list (Pool * Override))) :
  (calculate_with_pool self override_state = inl ValueError_sparse_bitmap
   <-> exists p, V3 p ∈ swap_pools self /\ _sparse_bitmap p = true)
  /\ (forall e : exn,
        calculate_with_pool self override_state = inl (Check_raised e)
        <-> (~ exists p, V3 p ∈ swap_pools self /\ _sparse_bitmap p = true)
            /\ _pre_calculation_check self override_state = Raise e)
  /\ (forall job,
        calculate_with_pool self override_state = inr job ->
        job = override_state
        /\ _pre_calculation_check self override_state = Ok tt
        /\ forall calculate_tokens_out_from_tokens_in minimize_scalar,
             _calculate calculate_tokens_out_from_tokens_in minimize_scalar
               self job
             = calculate calculate_tokens_out_from_tokens_in minimize_scalar
                 self override_state).
Proof.
  unfold calculate_with_pool.
  pose proof (sparse_bitmap_exists (swap_pools self)) as Hs.
  destruct (existsb _ _) eqn:Ee.
  - split; [|split].
    + split; [intros _; apply Hs; reflexivity | reflexivity].
    + intros e. split; [discriminate|]. intros [Hn _]. exfalso.
      apply Hn, Hs. reflexivity.
    + discriminate.
  - assert (~ exists p, V3 p ∈ swap_pools self /\ _sparse_bitmap p = true)
      as Hn.
    { intros H. apply Hs in H. discriminate. }
    destruct (_pre_calculation_check self override_state) as [[]|e0] eqn:Ec.
    + split; [|split].
      * split; [discriminate | intros H; contradiction].
      * intros e. split; [discriminate | intros [_ H]; discriminate].
      * intros job [= <-]. repeat split.
        intros calc ms. symmetry. apply calculate_check_twice.
    + split; [|split].
      * split; [discriminate | intros H; contradiction].
      * intros e. split.
        -- intros [= <-]. split; [exact Hn | reflexivity].
        -- intros [_ [= <-]]. reflexivity.
      * discriminate.
Qed.

Lemma calculate_with_pool_outcome_witness :
  calculate_with_pool Examples.weth_cycle_sparse None
  = inl ValueError_sparse_bitmap
  /\ _pre_calculation_check Examples.weth_cycle_sparse None
     = Raise (ZeroLiquidityError 19 V3_empty_bitmap).
Proof.
  split; [|vm_compute; reflexivity].
  apply (proj1 (calculate_with_pool_outcome Examples.weth_cycle_sparse None)).
  exists Examples.usdc_weth_v3_sparse. split; [|reflexivity].
  apply list_elem_of_further, list_elem_of_here.
Defined.

(** ** Pickling *)

Lemma kept_slots :
  filter (fun attr_name : string => attr_name ∉ dropped_attributes) __slots__
  = ["_swap_vectors"; "best"; "id"; "input_token"; "gas_estimate";
     "max_input"; "name"; "pool_states"; "swap_pools"].
Proof. vm_compute. reflexivity. Qed.

Lemma getstate_with_lock (object : gmap string attribute) :
  object !! "_lock" = Some attr_lock ->
  exists state,
    __getstate__ object = inr state
    /\ (forall attr_name : string,
          attr_name ∈ ["_swap_vectors"; "best"; "id"; "input_token";
                       "gas_estimate"; "max_input"; "name"; "pool_states";
                       "swap_pools"] ->
          state !! attr_name = Some (default attr_None (object !! attr_name)))
    /\ (forall attr_name : string,
          attr_name ∉ ["_swap_vectors"; "best"; "id"; "input_token";
                       "gas_estimate"; "max_input"; "name"; "pool_states";
                       "swap_pools"] ->
          state !! attr_name = None).
Proof.
  unfold __getstate__. intros H. rewrite H.
  eexists. split; [reflexivity|]. rewrite kept_slots. split.
  - intros attr_name Hin.
    repeat (apply elem_of_cons in Hin as [-> | Hin];
            [vm_compute; reflexivity|]).
    inversion Hin.
  - intros attr_name Hn. simpl.
    repeat (rewrite lookup_insert_ne;
            [|intros <-; apply Hn;
              repeat first [apply list_elem_of_here
                           | apply list_elem_of_further]]).
    apply lookup_empty.
Qed.

Lemma attributes_of_lock (self : UniswapLpCycle) (st : CycleState)
    (name : string) :
  attributes_of self st name !! "_lock" = Some attr_lock.
Proof. vm_compute. reflexivity. Qed.

(** X17: [__getstate__] raises an [AttributeError] for an object whose
    lock is not set.  For an object with its lock it returns a state that
    holds each of the nine other slots, with the value [None] for a slot
    that is not set, and nothing else: neither the lock, nor
    ["_subscribers"], nor any attribute that is no slot. *)
Theorem getstate_keeps_the_other_slots (object : gmap string attribute) :
  (object !! "_lock" = None -> __getstate__ object = inl AttributeError_lock)
  /\ (object !! "_lock" = Some attr_lock ->
      exists state,
        __getstate__ object = inr state
        /\ (forall attr_name : string,
              attr_name ∈ ["_swap_vectors"; "best"; "id"; "input_token";
                           "gas_estimate"; "max_input"; "name"; "pool_states";
                           "swap_pools"] ->
              state !! attr_name
              = Some (default attr_None (object !! attr_name)))
        /\ (forall attr_name : string,
              attr_name ∉ ["_swap_vectors"; "best"; "id"; "input_token";
                           "gas_estimate"; "max_input"; "name"; "pool_states";
                           "swap_pools"] ->
              state !! attr_name = None)).
Proof.
  split; [|apply getstate_with_lock].
  unfold __getstate__. intros ->. reflexivity.
Qed.

Lemma getstate_keeps_the_other_slots_witness :
  exists state,
    __getstate__
      (attributes_of Examples.weth_cycle (initial_state Examples.weth_cycle)
         "pools")
    = inr state
    /\ state !! "max_input" = Some (attr_int 2)
    /\ state !! "_lock" = None.
Proof.
  destruct (proj2 (getstate_keeps_the_other_slots
                     (attributes_of Examples.weth_cycle
                        (initial_state Examples.weth_cycle) "pools"))
              (attributes_of_lock _ _ _)) as (state & Hg & Hin & Hout).
  exists state. split; [exact Hg|]. split.
  - rewrite (Hin "max_input"); [vm_compute; reflexivity|].
    repeat first [apply list_elem_of_here | apply list_elem_of_further].
  - apply Hout. intros Hin'.
    repeat (apply elem_of_cons in Hin' as [[=] | Hin']).
    inversion Hin'.
Defined.

(** X18: pickling a cycle and setting the state on a new object gives
    back its id, input token, maximum input, pools, swap vectors, pool
    states and [best], and with them its calculations, and its name and
    gas estimate; the lock is not set on the new object, whose own
    [__getstate__] therefore raises an [AttributeError]. *)
Theorem pickle_round_trip (has_dict : bool) (self : UniswapLpCycle)
    (st : CycleState) (name : string) :
  exists state restored,
    __getstate__ (attributes_of self st name) = inr state
    /\ __setstate__ has_dict ∅ state = Some restored
    /\ cycle_of_attributes restored = Some (self, st)
    /\ restored !! "name" = Some (attr_name name)
    /\ restored !! "gas_estimate" = Some attr_None
    /\ restored !! "_lock" = None
    /\ __getstate__ restored = inl AttributeError_lock.
Proof.
  destruct (getstate_with_lock _ (attributes_of_lock self st name))
    as (state & Hg & Hin & Hout).
  assert (state !! "_lock" = None) as Hlock.
  { apply Hout. intros Hin'.
    repeat (apply elem_of_cons in Hin' as [[=] | Hin']).
    inversion Hin'. }
  exists state, state. split; [exact Hg|]. split.
  { unfold __setstate__. rewrite (right_id_L ∅ (∪)).
    replace (bool_decide
               (map_Forall (fun (attr_name : string) (_ : attribute) =>
                              attr_name ∈ __slots__) state))
      with true; [rewrite orb_true_r; reflexivity|].
    symmetry. apply bool_decide_eq_true_2. intros attr_name value Hv.
    destruct (decide (attr_name ∈ ["_swap_vectors"; "best"; "id";
                                   "input_token"; "gas_estimate"; "max_input";
                                   "name"; "pool_states"; "swap_pools"]))
      as [Hi | Hn].
    - apply list_elem_of_further. exact Hi.
    - rewrite (Hout _ Hn) in Hv. discriminate. }
  split.
  { unfold cycle_of_attributes.
    rewrite !Hin
      by repeat first [apply list_elem_of_here | apply list_elem_of_further].
    destruct self, st. vm_compute. reflexivity. }
  split.
  { rewrite Hin
      by repeat first [apply list_elem_of_here | apply list_elem_of_further].
    vm_compute. reflexivity. }
  split.
  { rewrite Hin
      by repeat first [apply list_elem_of_here | apply list_elem_of_further].
    vm_compute. reflexivity. }
  split; [exact Hlock|].
  unfold __getstate__. rewrite Hlock. reflexivity.
Qed.
